(** * PMT Data Explorer: the chart engine and its host, verified

    A shallow embedding of [src/PMTDataExplorer.jsx]: the linear scale
    [scaleData], the component [SvgLineChart] (domains, ticks, series
    grouping, markers and tooltips) and the state of [App] that feeds it
    (snapshot handler, selection handlers, derived colour map and filtered
    data).

    Numbers.  A JavaScript number is modelled as an exact rational or one
    of the three IEEE special values.  Arithmetic on finite values is exact
    (no rounding, no overflow); the special values follow IEEE 754, so a
    division by zero yields an infinity or [NaN] exactly as in the source.
    The sign of zero is not tracked: the only divisors of the program are
    the literal [5] and a difference [max - min], which is never the
    negative zero.

    Strings are byte strings; the default ordering of [Array.prototype.sort]
    is the lexicographic order on code units, which is [String.le].

    Objects used as maps ([dataByPmt], [pmtColorMap]) are finite maps with
    string keys; inherited properties of [Object.prototype] are outside the
    model.

    The rendered element tree is modelled by the data it shows: grid lines
    with their labels, and per series the vertices of the polyline and the
    markers with their tooltips.  A thrown exception is an explicit
    result. *)

From Stdlib Require Import QArith Qcanon Qpower ZArith Lia Ascii String.
From stdpp Require Import gmap strings list sorting.
From Corelib Require PrimFloat.

Local Open Scope Qc_scope.

(** ** The JavaScript runtime *)

Module JS.

Inductive number : Type :=
| Fin (q : Qc)
| PosInf
| NegInf
| NaN.

#[global] Instance number_eq_dec : EqDecision number.
Proof. solve_decision. Defined.

Definition of_Z (z : Z) : number := Fin (Q2Qc (inject_Z z)).

Definition pow10 (e : Z) : Qc := Q2Qc (10 ^ e)%Q.

(** [sci m e] is the decimal literal [m]e[e], for instance [2.7068e-12] is
    [sci 27068 (-16)]. *)
Definition sci (m e : Z) : number := Fin (Q2Qc (inject_Z m) * pow10 e).

Definition isFinite (x : number) : bool :=
  match x with Fin _ => true | _ => false end.

Definition neg (x : number) : number :=
  match x with
  | Fin q => Fin (- q)
  | PosInf => NegInf
  | NegInf => PosInf
  | NaN => NaN
  end.

Definition add (x y : number) : number :=
  match x, y with
  | NaN, _ | _, NaN => NaN
  | Fin a, Fin b => Fin (a + b)
  | PosInf, NegInf | NegInf, PosInf => NaN
  | PosInf, _ | _, PosInf => PosInf
  | NegInf, _ | _, NegInf => NegInf
  end.

Definition sub (x y : number) : number := add x (neg y).

(** An infinity times or over a finite value: the sign of the finite value
    decides, and a zero factor gives [NaN]. *)
Definition signed (inf : number) (a : Qc) : number :=
  if bool_decide (0 < a) then inf else neg inf.

Definition mul (x y : number) : number :=
  match x, y with
  | NaN, _ | _, NaN => NaN
  | Fin a, Fin b => Fin (a * b)
  | Fin a, inf | inf, Fin a =>
      if bool_decide (a = 0) then NaN else signed inf a
  | PosInf, PosInf | NegInf, NegInf => PosInf
  | PosInf, NegInf | NegInf, PosInf => NegInf
  end.

Definition div (x y : number) : number :=
  match x, y with
  | NaN, _ | _, NaN => NaN
  | Fin a, Fin b =>
      if bool_decide (b = 0)
      then (if bool_decide (a = 0) then NaN else signed PosInf a)
      else Fin (a / b)
  | Fin _, _ => Fin 0
  | inf, Fin b => if bool_decide (b = 0) then inf else signed inf b
  | _, _ => NaN
  end.

(** The relational operators; every comparison with [NaN] is false. *)
Definition lt (x y : number) : bool :=
  match x, y with
  | NaN, _ | _, NaN => false
  | Fin a, Fin b => bool_decide (a < b)
  | Fin _, PosInf => true
  | Fin _, NegInf => false
  | PosInf, _ => false
  | NegInf, NegInf => false
  | NegInf, _ => true
  end.

Definition gt (x y : number) : bool := lt y x.

Definition le (x y : number) : bool :=
  match x, y with
  | NaN, _ | _, NaN => false
  | _, _ => negb (lt y x)
  end.

(** [Math.min] and [Math.max] over an argument list already coerced to
    numbers: the empty list gives the infinity, any [NaN] gives [NaN]. *)
Definition min2 (lowest x : number) : number :=
  match lowest, x with
  | NaN, _ | _, NaN => NaN
  | _, _ => if lt x lowest then x else lowest
  end.

Definition max2 (highest x : number) : number :=
  match highest, x with
  | NaN, _ | _, NaN => NaN
  | _, _ => if lt highest x then x else highest
  end.

Definition Math_min (xs : list number) : number := foldl min2 PosInf xs.
Definition Math_max (xs : list number) : number := foldl max2 NegInf xs.

(** Property values.  Reading a property an object lacks gives
    [VUndefined]. *)
Inductive value : Type :=
| VUndefined
| VNumber (n : number)
| VString (s : string).

(** What the engine takes from its host beyond the arithmetic above: the
    numeric value of a string, and the decimal form of a finite number of
    magnitude at least [10^21] (the shortest digits that read back as the
    same double, which exact rationals do not determine). *)
Class Host : Type := {
  StringToNumber : string → number;
  NumberToString : Qc → string;
}.

Definition ToNumber `{Host} (v : value) : number :=
  match v with
  | VUndefined => NaN
  | VNumber n => n
  | VString s => StringToNumber s
  end.

(** Thrown exceptions. *)
Inductive error : Type :=
| TypeError (msg : string).

Inductive result (A : Type) : Type :=
| Ok (a : A)
| Throw (e : error).
Arguments Ok {A} a.
Arguments Throw {A} e.

Definition bind {A B} (r : result A) (k : A → result B) : result B :=
  match r with
  | Ok a => k a
  | Throw e => Throw e
  end.

(** [Array.prototype.map] with a callback that may throw: the first
    exception, in index order, aborts the whole map. *)
Fixpoint mapi_result {A B} (f : nat → A → result B) (i : nat) (l : list A)
  : result (list B) :=
  match l with
  | [] => Ok []
  | x :: l' =>
      bind (f i x) (λ y, bind (mapi_result f (S i) l') (λ ys, Ok (y :: ys)))
  end.

(** [Array.prototype.sort] is stable.  [after x y] says that the comparison
    function is positive on [(x, y)], so that [x] has to come after [y].
    The order is that of a stable insertion sort; for a consistent
    comparison function every conforming sort returns this list. *)
Fixpoint insert {A} (after : A → A → bool) (x : A) (l : list A) : list A :=
  match l with
  | [] => [x]
  | y :: l' => if after x y then y :: insert after x l' else x :: l
  end.

Definition sort {A} (after : A → A → bool) (l : list A) : list A :=
  foldr (insert after) [] l.

(** [x] may stand before [y]: the comparison function is not positive. *)
Definition before {A} (after : A → A → bool) (x y : A) : Prop := after x y = false.

(** The default comparison of [sort()]: by code units. *)
Definition string_after (x y : string) : bool := negb (String.leb x y).

(** [[...new Set(l)]]: the distinct elements of [l], each at the place of
    its first occurrence. *)
Fixpoint Set_add_all (set l : list string) : list string :=
  match l with
  | [] => set
  | x :: l' => Set_add_all (if bool_decide (x ∈ set) then set else set ++ [x]) l'
  end.

Definition new_Set (l : list string) : list string := Set_add_all [] l.

Definition includes (l : list string) (x : string) : bool := bool_decide (x ∈ l).

(** *** Number formatting *)

Definition digit_char (d : Z) : ascii := ascii_of_nat (48 + Z.to_nat d).

Fixpoint digits_go (fuel : nat) (n : Z) (acc : string) : string :=
  match fuel with
  | O => acc
  | S fuel' =>
      let acc' := String (digit_char (n mod 10)) acc in
      if (n <? 10)%Z then acc' else digits_go fuel' (n / 10) acc'
  end.

(** The decimal digits of a natural number, most significant first. *)
Definition digits (n : Z) : string :=
  digits_go (S (Z.to_nat (Z.log2 n))) n "".

Fixpoint zeros (k : nat) : string :=
  match k with
  | O => ""
  | S k' => String "0" (zeros k')
  end.

Fixpoint take_string (k : nat) (s : string) : string :=
  match k, s with
  | S k', String c s' => String c (take_string k' s')
  | _, _ => ""
  end.

Fixpoint drop_string (k : nat) (s : string) : string :=
  match k, s with
  | S k', String _ s' => drop_string k' s'
  | _, _ => s
  end.

(** The integer nearest to a non-negative rational, the larger one on a
    tie. *)
Definition round_half_up (x : Qc) : Z :=
  ((2 * Qnum x + Z.pos (Qden x)) / (2 * Z.pos (Qden x)))%Z.

Definition Qcabs (x : Qc) : Qc := if bool_decide (x < 0) then - x else x.

Definition NonFiniteToString (x : number) : string :=
  match x with
  | PosInf => "Infinity"
  | NegInf => "-Infinity"
  | _ => "NaN"
  end.

(** [Number.prototype.toFixed(f)], for [0 <= f <= 100]. *)
Definition toFixed `{Host} (f : nat) (x : number) : string :=
  match x with
  | Fin q =>
      let s := if bool_decide (q < 0) then "-" else "" in
      let a := Qcabs q in
      if bool_decide (pow10 21 ≤ a) then s +:+ NumberToString a
      else
        let n := round_half_up (a * pow10 (Z.of_nat f)) in
        let m := digits n in
        let m :=
          match f with
          | O => m
          | _ =>
              let k := String.length m in
              let m := if bool_decide (k ≤ f)%nat then zeros (f + 1 - k) +:+ m else m in
              let k := String.length m in
              take_string (k - f) m +:+ "." +:+ drop_string (k - f) m
          end in
        s +:+ m
  | _ => NonFiniteToString x
  end.

(** The decimal exponent of a positive rational: the [e] with
    [10^e <= x < 10^(e+1)], searched upwards from [0] or downwards from
    [-1]. *)
Fixpoint log10_up (fuel : nat) (x : Qc) (e : Z) : Z :=
  match fuel with
  | O => e
  | S fuel' =>
      if bool_decide (x < pow10 (e + 1)) then e else log10_up fuel' x (e + 1)
  end.

Fixpoint log10_down (fuel : nat) (x : Qc) (e : Z) : Z :=
  match fuel with
  | O => e
  | S fuel' =>
      if bool_decide (pow10 e ≤ x) then e else log10_down fuel' x (e - 1)
  end.

Definition floor_log10 (x : Qc) : Z :=
  if bool_decide (1 ≤ x)
  then log10_up (S (Z.to_nat (Z.log2 (Qnum x)))) x 0
  else log10_down (S (S (Z.to_nat (Z.log2 (Z.pos (Qden x)))))) x (-1).

(** The pair [(n, e)] of [toExponential]: [10^f <= n < 10^(f+1)] with
    [n * 10^(e-f)] nearest to [x], the larger one on a tie. *)
Definition exponential_digits (f : nat) (x : Qc) : Z * Z :=
  let e := floor_log10 x in
  let n := round_half_up (x * pow10 (Z.of_nat f - e)) in
  if bool_decide (n = 10 ^ (Z.of_nat f + 1))%Z then ((10 ^ Z.of_nat f)%Z, (e + 1)%Z)
  else (n, e).

(** [Number.prototype.toExponential(f)], for [0 <= f <= 100]. *)
Definition toExponential (f : nat) (x : number) : string :=
  match x with
  | Fin q =>
      let s := if bool_decide (q < 0) then "-" else "" in
      let a := Qcabs q in
      let '(m, e) :=
        if bool_decide (a = 0) then (zeros (f + 1), 0%Z)
        else let '(n, e) := exponential_digits f a in (digits n, e) in
      let m :=
        match f with
        | O => m
        | _ => take_string 1 m +:+ "." +:+ drop_string 1 m
        end in
      let c := if bool_decide (e < 0)%Z then "-" else "+" in
      let d := digits (Z.abs e) in
      s +:+ m +:+ "e" +:+ c +:+ d
  | _ => NonFiniteToString x
  end.

(** *** Shapes of formatted numbers *)






End JS.

Import JS.

(** ** Data *)

(** A document of the collection as the snapshot handler yields it: the
    document identifier and the five fields of a measurement. *)
Record point : Type := {
  id : string;
  source_file : string;
  current : number;
  intensity : number;
  wavelength : number;
  light_response : number;
}.

(** [d[key]] for an arbitrary property name (own properties only). *)
Definition prop (d : point) (key : string) : value :=
  if bool_decide (key = "id") then VString (id d)
  else if bool_decide (key = "source_file") then VString (source_file d)
  else if bool_decide (key = "current") then VNumber (current d)
  else if bool_decide (key = "intensity") then VNumber (intensity d)
  else if bool_decide (key = "wavelength") then VNumber (wavelength d)
  else if bool_decide (key = "light_response") then VNumber (light_response d)
  else VUndefined.

Definition entry (i : nat) (src : string) (cur int wl lr : number) : point :=
  {| id := "entry_" +:+ digits (Z.of_nat i); source_file := src;
     current := cur; intensity := int; wavelength := wl; light_response := lr |}.

(** The seed data, with the identifiers the seeding gives them. *)
Definition initialData : list point := [
  entry 0 "J23-1062.txt" (sci (-47751) (-14)) (sci 17641 (-2)) (sci 205988 (-3)) (sci 27068 (-16));
  entry 1 "J23-1062.txt" (sci (-70588) (-14)) (sci 319546 (-3)) (sci 216824 (-3)) (sci 2209 (-15));
  entry 2 "J23-1062.txt" (sci (-11942) (-13)) (sci 581395 (-3)) (sci 22652 (-2)) (sci 20539 (-16));
  entry 3 "J23-1062.txt" (sci (-21352) (-13)) (sci 103277 (-2)) (sci 237356 (-3)) (sci 20674 (-16));
  entry 4 "J23-1062.txt" (sci (-35917) (-13)) (sci 153444 (-2)) (sci 248192 (-3)) (sci 23407 (-16));
  entry 5 "A24-1080.txt" (sci (-13444) (-12)) (sci 368272 (-2)) (sci 2807 (-1)) (sci 36506 (-16));
  entry 6 "A24-1080.txt" (sci (-17417) (-12)) (sci 443929 (-2)) (sci 291536 (-3)) (sci 39235 (-16));
  entry 7 "A24-1080.txt" (sci (-21577) (-12)) (sci 465517 (-2)) (sci 302372 (-3)) (sci 4635 (-15));
  entry 8 "A24-1080.txt" (sci (-26307) (-12)) (sci 51352 (-1)) (sci 313208 (-3)) (sci 51229 (-16));
  entry 9 "A24-1080.txt" (sci (-30302) (-12)) (sci 541659 (-2)) (sci 323474 (-3)) (sci 55942 (-16));
  entry 10 "A24-1080.txt" (sci (-33499) (-12)) (sci 658964 (-2)) (sci 333739 (-3)) (sci 50837 (-16))
].

(** The plottable metrics (the icon of an option is presentation only). *)
Record axis_option : Type := { key : string; label : string }.

Definition Y_AXIS_OPTIONS : list axis_option := [
  {| key := "light_response"; label := "Light Response (A/uWatt/cm²/nm)" |};
  {| key := "current"; label := "Current (A)" |};
  {| key := "intensity"; label := "Intensity (uWatt/cm²/nm)" |}
].

Definition PLOT_COLORS : list string := [
  "#ef4444"; "#3b82f6"; "#10b981"; "#f97316"; "#a855f7";
  "#06b6d4"; "#eab308"; "#ec4899"; "#84cc16"; "#6366f1"
].

(** [PLOT_COLORS[index % PLOT_COLORS.length]]; the index is always in
    range (lemma [PLOT_COLORS_lookup]). *)
Definition plot_color (index : nat) : string :=
  default "" (PLOT_COLORS !! (index mod length PLOT_COLORS)%nat).

(** ** Utility functions *)

(** Simple linear scaling function for SVG plotting. *)
Definition scaleData (value domainMin domainMax rangeMin rangeMax : number) : number :=
  add rangeMin
      (div (mul (sub rangeMax rangeMin) (sub value domainMin))
           (sub domainMax domainMin)).

(** The same two expressions on IEEE 754 doubles, to run the seed data
    with the rounding the exact model leaves out. *)
Module Binary64.
Import PrimFloat.
Local Open Scope float_scope.

Definition scaleData (value domainMin domainMax rangeMin rangeMax : float) : float :=
  rangeMin + (rangeMax - rangeMin) * (value - domainMin) / (domainMax - domainMin).

Definition tick (min range i : float) : float := min + (range / 5) * i.

(** The wavelengths of the seed data span 205.988 to 333.739. *)
#[warnings="-inexact-float"]
Definition seed_min_scales_to_50 : bool :=
  eqb (scaleData 205.988 205.988 333.739 50 650) 50.

#[warnings="-inexact-float"]
Definition seed_max_scales_to_650 : bool :=
  eqb (scaleData 333.739 205.988 333.739 50 650) 650.

#[warnings="-inexact-float"]
Definition seed_last_tick_is_max : bool :=
  eqb (tick 205.988 (333.739 - 205.988) 5) 333.739.

#[warnings="-inexact-float"]
Definition seed_zero_width_is_NaN : bool :=
  is_nan (scaleData 205.988 205.988 205.988 50 650).

End Binary64.

(** ** The chart *)

Module SvgLineChart.

Definition chartWidth : number := of_Z 700.
Definition chartHeight : number := of_Z 400.
Definition padding : number := of_Z 50.

(** The two scales, closed over the data domain. *)
Definition xScale (xMin xMax : number) (x : number) : number :=
  scaleData x xMin xMax padding (sub chartWidth padding).

Definition yScale (yMin yMax : number) (y : number) : number :=
  scaleData y yMin yMax (sub chartHeight padding) padding.

(** [for (let i = 0; i <= 5; i++) ticks.push(min + (range / 5) * i)]. *)
Definition ticks (min range : number) : list number :=
  (λ i, add min (mul (div range (of_Z 5)) (of_Z i))) <$> [0; 1; 2; 3; 4; 5]%Z.

Definition metricLabel (selectedMetric : string) : string :=
  match List.find (λ opt, bool_decide (key opt = selectedMetric)) Y_AXIS_OPTIONS with
  | Some opt => label opt
  | None => ""
  end.

(** What the memoised block returns on non-empty data. *)
Record scales : Type := {
  xMin : number; xMax : number; yMin : number; yMax : number;
  xAxisTicks : list number;
  yAxisTicks : list number;
  yAxisLabel : string;
}.

Section Engine.
Context `{Host}.

Definition yValue (selectedMetric : string) (d : point) : number :=
  ToNumber (prop d selectedMetric).

(** The memoised block: [None] stands for the empty object returned on
    empty data. *)
Definition memo (data : list point) (selectedMetric : string) : option scales :=
  match data with
  | [] => None
  | _ =>
      let xValues := wavelength <$> data in
      let yValues := yValue selectedMetric <$> data in
      let xMin := Math_min xValues in
      let xMax := Math_max xValues in
      let yMin := Math_min yValues in
      let yMax := Math_max yValues in
      let xRange := sub xMax xMin in
      let yRange := sub yMax yMin in
      Some {| xMin := xMin; xMax := xMax; yMin := yMin; yMax := yMax;
              xAxisTicks := ticks xMin xRange;
              yAxisTicks := ticks yMin yRange;
              yAxisLabel := metricLabel selectedMetric |}
  end.

(** Group data by PMT for plotting multiple lines. *)
Definition by_wavelength (a b : point) : bool :=
  gt (sub (wavelength a) (wavelength b)) (of_Z 0).

Definition pmtGroup (data : list point) (pmt : string) : list point :=
  sort by_wavelength (filter (λ d, source_file d = pmt) data).

Definition dataByPmt (data : list point) (pmtList : list string)
  : gmap string (list point) :=
  foldl (λ acc pmt, <[pmt := pmtGroup data pmt]> acc) ∅ pmtList.

(** The rendered scene.  A grid line is the tick's pixel position with its
    text; a series is the polyline (its vertices, before they are joined
    into the [points] attribute) with one marker per vertex. *)
Record grid_line : Type := { at_pixel : number; text : string }.

Record marker : Type := { cx : number; cy : number; fill : string; title : string }.

Record series : Type := {
  pmt_key : string;
  stroke : string;
  linePath : list (number * number);
  markers : list marker;
}.

Record chart : Type := {
  heading : string;
  yGrid : list grid_line;
  xGrid : list grid_line;
  yTitle : string;
  lines : list series;
}.

Inductive rendered : Type :=
| Placeholder (message : string)
| Chart (c : chart)
| Thrown (e : error).

(** [v.toExponential(3)] on a property value: only numbers have the
    method. *)
Definition value_toExponential (f : nat) (v : value) : result string :=
  match v with
  | VNumber n => Ok (toExponential f n)
  | VUndefined => Throw (TypeError "Cannot read properties of undefined")
  | VString _ => Throw (TypeError "toExponential is not a function")
  end.

Definition tooltip (pmt selectedMetric : string) (d : point) : result string :=
  bind (value_toExponential 3 (prop d selectedMetric)) (λ v,
    Ok (pmt +:+ ": Wavelength=" +:+ toFixed 1 (wavelength d) +:+ "nm, "
        +:+ selectedMetric +:+ "=" +:+ v)).

Definition draw_series (sc : scales) (selectedMetric : string)
    (groups : gmap string (list point)) (colorMap : gmap string string)
    (index : nat) (pmt : string) : result series :=
  match groups !! pmt with
  | None => Throw (TypeError "Cannot read properties of undefined")
  | Some pmtData =>
      let color :=
        match colorMap !! pmt with
        | Some c => if bool_decide (c = "") then plot_color index else c
        | None => plot_color index
        end in
      let vertex d :=
        (xScale (xMin sc) (xMax sc) (wavelength d),
         yScale (yMin sc) (yMax sc) (yValue selectedMetric d)) in
      bind (mapi_result (λ _ d,
              bind (tooltip pmt selectedMetric d) (λ t,
                Ok {| cx := fst (vertex d); cy := snd (vertex d);
                      fill := color; title := t |})) 0 pmtData) (λ ms,
        Ok {| pmt_key := pmt; stroke := color;
              linePath := vertex <$> pmtData; markers := ms |})
  end.

Definition draw (sc : scales) (data : list point) (selectedMetric : string)
    (pmtList : list string) (colorMap : gmap string string) : rendered :=
  let groups := dataByPmt data pmtList in
  let yGrid := (λ tick, {| at_pixel := yScale (yMin sc) (yMax sc) tick;
                           text := toExponential 2 tick |}) <$> yAxisTicks sc in
  let xGrid := (λ tick, {| at_pixel := xScale (xMin sc) (xMax sc) tick;
                           text := toFixed 0 tick |}) <$> xAxisTicks sc in
  match mapi_result (draw_series sc selectedMetric groups colorMap) 0 pmtList with
  | Throw e => Thrown e
  | Ok ls =>
      Chart {| heading := yAxisLabel sc +:+ " vs. Wavelength (nm)";
               yGrid := yGrid; xGrid := xGrid;
               yTitle := yAxisLabel sc; lines := ls |}
  end.

Definition SvgLineChart (data : list point) (selectedMetric : string)
    (pmtList : list string) (colorMap : gmap string string) : rendered :=
  let scales := memo data selectedMetric in
  if bool_decide (length data = 0%nat)
  then Placeholder "No data selected or available to plot."
  else
    match scales with
    | Some sc => draw sc data selectedMetric pmtList colorMap
    | None => Thrown (TypeError "Cannot read properties of undefined")
    end.

End Engine.

End SvgLineChart.

(** ** The application state *)

Module App.

(** The state the chart depends on ([db], [auth] and [userId] belong to
    the data provider). *)
Record state : Type := {
  allData : list point;
  selectedPmts : list string;
  selectedMetric : string;
  isLoading : bool;
  error : option string;
}.

Definition initial : state :=
  {| allData := []; selectedPmts := []; selectedMetric := "light_response";
     isLoading := true; error := None |}.

(** All unique PMT serial numbers of a data set, sorted. *)
Definition uniquePmtsOf (data : list point) : list string :=
  sort string_after (new_Set (source_file <$> data)).

(** The snapshot listener.  Its three state updates are applied as one
    batch; the selection update is the functional one, so it reads the
    selection current at that time. *)
Definition onSnapshot (data : list point) (st : state) : state :=
  let uniquePmts := uniquePmtsOf data in
  {| allData := data;
     selectedPmts :=
       (let prev := selectedPmts st in
        if bool_decide (length prev = 0%nat)
        then take (Nat.min (length uniquePmts) 5) uniquePmts
        else filter (λ p, includes uniquePmts p) prev);
     selectedMetric := selectedMetric st;
     isLoading := false;
     error := error st |}.

Definition onSnapshotError (message : string) (st : state) : state :=
  {| allData := allData st; selectedPmts := selectedPmts st;
     selectedMetric := selectedMetric st; isLoading := false;
     error := Some ("Failed to fetch data: " +:+ message) |}.

(** Derived state. *)
Definition uniquePmts (st : state) : list string := uniquePmtsOf (allData st).

Definition colorMapOf (uniquePmts : list string) : gmap string string :=
  foldl (λ acc '(index, pmt), <[pmt := plot_color index]> acc) ∅
        (imap (λ index pmt, (index, pmt)) uniquePmts).

Definition pmtColorMap (st : state) : gmap string string :=
  colorMapOf (uniquePmts st).

Definition filteredData (st : state) : list point :=
  filter (λ d, includes (selectedPmts st) (source_file d)) (allData st).

(** Event handlers. *)
Definition set_selection (sel : list string) (st : state) : state :=
  {| allData := allData st; selectedPmts := sel;
     selectedMetric := selectedMetric st; isLoading := isLoading st;
     error := error st |}.

Definition handlePmtToggle (pmt : string) (st : state) : state :=
  let prev := selectedPmts st in
  set_selection (if includes prev pmt then filter (λ p, p ≠ pmt) prev
                 else prev ++ [pmt]) st.

Definition handleSelectAll (st : state) : state := set_selection (uniquePmts st) st.

Definition handleClearSelection (st : state) : state := set_selection [] st.

Definition setSelectedMetric (metric : string) (st : state) : state :=
  {| allData := allData st; selectedPmts := selectedPmts st;
     selectedMetric := metric; isLoading := isLoading st; error := error st |}.

(** What the user and the data provider can do: the buttons exist only
    for the PMTs of the current data and for the listed metrics. *)
Inductive step : state → state → Prop :=
| step_snapshot data st : step st (onSnapshot data st)
| step_snapshot_error msg st : step st (onSnapshotError msg st)
| step_toggle pmt st : pmt ∈ uniquePmts st → step st (handlePmtToggle pmt st)
| step_select_all st : step st (handleSelectAll st)
| step_clear st : step st (handleClearSelection st)
| step_metric opt st :
    opt ∈ Y_AXIS_OPTIONS → step st (setSelectedMetric (key opt) st).

Inductive reachable : state → Prop :=
| reachable_initial : reachable initial
| reachable_step st st' : reachable st → step st st' → reachable st'.

(** The chart element of the page. *)
Definition render_chart `{Host} (st : state) : SvgLineChart.rendered :=
  SvgLineChart.SvgLineChart (filteredData st) (selectedMetric st)
                            (selectedPmts st) (pmtColorMap st).

End App.

(** ** Inputs of the worked examples *)

Module Examples.

(** The host of the worked examples.  They run on the seed data, whose
    strings are file names and document identifiers, none a numeric
    literal, and whose magnitudes are far below [10^21]. *)
Definition seed_host : Host :=
  {| StringToNumber := λ _, NaN; NumberToString := λ _, "" |}.

Definition seed_point : point :=
  entry 0 "J23-1062.txt" (sci (-47751) (-14)) (sci 17641 (-2))
        (sci 205988 (-3)) (sci 27068 (-16)).

(** A state whose selection names a PMT that the snapshot lacks: the
    snapshot holds the five points of [J23-1062.txt] only. *)
Definition stale_selection : App.state :=
  {| App.allData := take 5 initialData;
     App.selectedPmts := ["J23-1062.txt"; "A24-1080.txt"];
     App.selectedMetric := "light_response";
     App.isLoading := false;
     App.error := None |}.

(** The grouping as the specification words it: one group for each
    selected source that exists in the snapshot, and no other. *)
Definition grouping_as_specified (st : App.state) : Prop :=
  ∀ pmt,
    is_Some (SvgLineChart.dataByPmt (App.filteredData st) (App.selectedPmts st) !! pmt)
    ↔ pmt ∈ App.selectedPmts st ∧ pmt ∈ source_file <$> App.allData st.


End Examples.


(** ** The page and its start-up *)

Module Lifecycle.

(** The whole state of [App]: the part the chart depends on, and what the
    start-up sets ([db] and [auth] say that the handle is no longer
    [null]). *)
Record state : Type := {
  app : App.state;
  db : bool;
  auth : bool;
  userId : option string;
  isAuthReady : bool;
}.

Definition initial : state :=
  {| app := App.initial; db := false; auth := false; userId := None;
     isAuthReady := false |}.

Definition with_app (f : App.state → App.state) (st : state) : state :=
  {| app := f (app st); db := db st; auth := auth st; userId := userId st;
     isAuthReady := isAuthReady st |}.

Definition setError (message : string) (a : App.state) : App.state :=
  {| App.allData := App.allData a; App.selectedPmts := App.selectedPmts a;
     App.selectedMetric := App.selectedMetric a; App.isLoading := App.isLoading a;
     App.error := Some message |}.

Definition setIsLoading (loading : bool) (a : App.state) : App.state :=
  {| App.allData := App.allData a; App.selectedPmts := App.selectedPmts a;
     App.selectedMetric := App.selectedMetric a; App.isLoading := loading;
     App.error := App.error a |}.

(** 1. Initialize Firebase, Auth, and Database.  [firebaseConfig] says
    whether the configuration is present; [thrown] is the message of the
    exception that the initialisation raises, if it raises one. *)
Definition initialize (firebaseConfig : bool) (thrown : option string)
    (st : state) : state :=
  if negb firebaseConfig
  then with_app (λ a, setIsLoading false
                        (setError "Firebase configuration is missing. Cannot initialize application." a)) st
  else
    match thrown with
    | None =>
        {| app := app st; db := true; auth := true; userId := userId st;
           isAuthReady := isAuthReady st |}
    | Some message =>
        with_app (λ a, setIsLoading false
                         (setError ("Firebase Initialization Error: " +:+ message) a)) st
    end.

(** 2. Handle Authentication.  A failed sign-in sets the error and still
    lets the data loading start; the listener on the authentication state
    records the user and, at its end, lets the data loading start. *)
Definition signInFailed (message : string) (st : state) : state :=
  {| app := setError ("Authentication failed: " +:+ message) (app st);
     db := db st; auth := auth st; userId := userId st; isAuthReady := true |}.

Definition setUserId (uid : string) (st : state) : state :=
  {| app := app st; db := db st; auth := auth st; userId := Some uid;
     isAuthReady := isAuthReady st |}.

Definition setIsAuthReady (st : state) : state :=
  {| app := app st; db := db st; auth := auth st; userId := userId st;
     isAuthReady := true |}.

(** The render of [App]: which of its three returns is taken. *)
Definition truthy (error : option string) : bool :=
  match error with
  | Some message => negb (bool_decide (message = ""))
  | None => false
  end.

Definition shows_main (st : state) : bool :=
  isAuthReady st && negb (App.isLoading (app st)) && negb (truthy (App.error (app st))).

(** The main page, by the data it shows: the counter of the selection,
    one button for each PMT of the data, one for each metric, the chart
    and the legend.  A colour that the colour map lacks is [None]. *)
Record pmt_button : Type := {
  button_pmt : string;
  button_selected : bool;
  backgroundColor : option string;
}.

Record metric_button : Type := {
  button_option : axis_option;
  button_active : bool;
}.

Record legend_entry : Type := {
  legend_pmt : string;
  legend_color : option string;
}.

Record page : Type := {
  shown_userId : option string;
  selected_count : nat;
  total_count : nat;
  pmt_buttons : list pmt_button;
  metric_buttons : list metric_button;
  page_chart : SvgLineChart.rendered;
  legend : list legend_entry;
}.

Inductive screen : Type :=
| LoadingScreen
| ErrorScreen (message : string) (userId : option string)
| MainPage (p : page).

Definition main_page `{Host} (st : state) : page :=
  let a := app st in
  {| shown_userId := userId st;
     selected_count := length (App.selectedPmts a);
     total_count := length (App.uniquePmts a);
     pmt_buttons :=
       (λ pmt, {| button_pmt := pmt;
                  button_selected := includes (App.selectedPmts a) pmt;
                  backgroundColor :=
                    if includes (App.selectedPmts a) pmt
                    then App.pmtColorMap a !! pmt else None |})
       <$> App.uniquePmts a;
     metric_buttons :=
       (λ option, {| button_option := option;
                     button_active :=
                       bool_decide (App.selectedMetric a = key option) |})
       <$> Y_AXIS_OPTIONS;
     page_chart := App.render_chart a;
     legend :=
       (λ pmt, {| legend_pmt := pmt; legend_color := App.pmtColorMap a !! pmt |})
       <$> App.selectedPmts a |}.

Definition render `{Host} (st : state) : screen :=
  if negb (isAuthReady st) || App.isLoading (app st) then LoadingScreen
  else
    match App.error (app st) with
    | Some message =>
        if bool_decide (message = "") then MainPage (main_page st)
        else ErrorScreen message (userId st)
    | None => MainPage (main_page st)
    end.

(** What can happen to the page.  The second effect runs only once [auth]
    and [db] are set, the snapshot listener only once [db] is set and the
    authentication is ready, and the buttons exist only on the main
    page. *)
Inductive step (firebaseConfig : bool) : state → state → Prop :=
| step_initialize thrown st :
    step firebaseConfig st (initialize firebaseConfig thrown st)
| step_sign_in_failed message st :
    auth st → db st → step firebaseConfig st (signInFailed message st)
| step_user uid st :
    auth st → db st → step firebaseConfig st (setUserId uid st)
| step_auth_ready st :
    auth st → db st → step firebaseConfig st (setIsAuthReady st)
| step_snapshot data st :
    db st → isAuthReady st →
    step firebaseConfig st (with_app (App.onSnapshot data) st)
| step_snapshot_error message st :
    db st → isAuthReady st →
    step firebaseConfig st (with_app (App.onSnapshotError message) st)
| step_toggle pmt st :
    shows_main st → pmt ∈ App.uniquePmts (app st) →
    step firebaseConfig st (with_app (App.handlePmtToggle pmt) st)
| step_select_all st :
    shows_main st → step firebaseConfig st (with_app App.handleSelectAll st)
| step_clear st :
    shows_main st → step firebaseConfig st (with_app App.handleClearSelection st)
| step_metric option st :
    shows_main st → option ∈ Y_AXIS_OPTIONS →
    step firebaseConfig st (with_app (App.setSelectedMetric (key option)) st).

Definition reachable (firebaseConfig : bool) (st : state) : Prop :=
  rtc (step firebaseConfig) initial st.

(** A selection fit for the chart: free of duplicates, within the sources
    of the data, with a listed metric. *)
Definition valid (a : App.state) : Prop :=
  NoDup (App.selectedPmts a) ∧
  (∀ pmt, pmt ∈ App.selectedPmts a → pmt ∈ source_file <$> App.allData a) ∧
  App.selectedMetric a ∈ key <$> Y_AXIS_OPTIONS.

End Lifecycle.

(** ** Seeding of the collection *)

Module Seeding.

(** The collection holds the documents by their identifier: it is a
    [gmap string point]. *)

(** [setDoc(doc(pmtDataRef, `entry_${index}`), data)] for every entry of
    the data, under a predictable identifier; every write is taken to
    succeed, and a document is read back with its identifier. *)
Definition entry_id (index : nat) : string := "entry_" +:+ digits (Z.of_nat index).

Definition with_id (doc_id : string) (d : point) : point :=
  {| id := doc_id; source_file := source_file d; current := current d;
     intensity := intensity d; wavelength := wavelength d;
     light_response := light_response d |}.

Definition setDoc (doc_id : string) (d : point) (collection : gmap string point)
  : gmap string point :=
  <[doc_id := with_id doc_id d]> collection.

Definition writes (l : list (nat * point)) (collection : gmap string point)
  : gmap string point :=
  foldl (λ acc '(index, d), setDoc (entry_id index) d acc) collection l.

Definition seed (data : list point) (collection : gmap string point)
  : gmap string point :=
  writes (imap (λ index d, (index, d)) data) collection.

(** Check if data needs to be seeded: only an empty collection is. *)
Definition seedIfEmpty (data : list point) (collection : gmap string point)
  : gmap string point :=
  if decide (collection = ∅) then seed data collection else collection.

End Seeding.

(** * Properties *)

(** ** Numbers *)

Section Numbers.

Lemma isFinite_Fin (x : number) : isFinite x → ∃ q, x = Fin q.
Proof. destruct x; simpl; intros Hx; try done. by eexists. Qed.

Lemma lt_Fin (a b : Qc) : lt (Fin a) (Fin b) ↔ a < b.
Proof. simpl. apply bool_decide_spec. Qed.

Lemma sub_Fin (a b : Qc) : sub (Fin a) (Fin b) = Fin (a - b).
Proof. reflexivity. Qed.

Lemma Qcminus_eq_0 (a b : Qc) : a - b = 0 → a = b.
Proof.
  intros E. rewrite <- (Qcplus_0_l b), <- E. ring.
Qed.

Lemma Qclt_minus_iff' (a b : Qc) : a < b ↔ 0 < b - a.
Proof.
  rewrite (Qcplus_lt_mono_r a b (- a)).
  by replace (a + - a) with (Q2Qc 0) by ring.
Qed.

Lemma Qcminus_pos (a b : Qc) : a < b → 0 < b - a.
Proof. apply Qclt_minus_iff'. Qed.


Lemma div_Fin (a b : Qc) : b ≠ 0 → div (Fin a) (Fin b) = Fin (a / b).
Proof. intros Hb. simpl. by rewrite bool_decide_eq_false_2. Qed.

Lemma foldl_min2_Fin (xs : list number) (a : Qc) :
  Forall isFinite xs →
  ∃ m, foldl min2 (Fin a) xs = Fin m ∧ (m = a ∨ Fin m ∈ xs) ∧ m ≤ a ∧
       ∀ b, Fin b ∈ xs → m ≤ b.
Proof.
  intros Hxs. revert a. induction Hxs as [|x xs Hx _ IH]; intros a; simpl.
  - exists a. split_and!; [done|by left|done|]. intros b Hb. by apply elem_of_nil in Hb.
  - apply isFinite_Fin in Hx as [q ->]. simpl.
    case_bool_decide as Hqa.
    + destruct (IH q) as (m & -> & Hm & Hmq & Hall). exists m.
      split_and!; [done| |by etrans; [|apply Qclt_le_weak]|].
      * right. destruct Hm as [->|Hm]; [left|by right].
      * intros b [[= ->]|Hb]%elem_of_cons; auto.
    + apply Qcle_ngt in Hqa.
      destruct (IH a) as (m & -> & Hm & Hma & Hall). exists m.
      split_and!; [done| |done|].
      * destruct Hm as [->|Hm]; [by left|right; by right].
      * intros b [[= ->]|Hb]%elem_of_cons; [by etrans|auto].
Qed.

Lemma foldl_max2_Fin (xs : list number) (a : Qc) :
  Forall isFinite xs →
  ∃ m, foldl max2 (Fin a) xs = Fin m ∧ (m = a ∨ Fin m ∈ xs) ∧ a ≤ m ∧
       ∀ b, Fin b ∈ xs → b ≤ m.
Proof.
  intros Hxs. revert a. induction Hxs as [|x xs Hx _ IH]; intros a; simpl.
  - exists a. split_and!; [done|by left|done|]. intros b Hb. by apply elem_of_nil in Hb.
  - apply isFinite_Fin in Hx as [q ->]. simpl.
    case_bool_decide as Hqa.
    + destruct (IH q) as (m & -> & Hm & Hmq & Hall). exists m.
      split_and!; [done| |by etrans; [apply Qclt_le_weak|]|].
      * right. destruct Hm as [->|Hm]; [left|by right].
      * intros b [[= ->]|Hb]%elem_of_cons; auto.
    + apply Qcle_ngt in Hqa.
      destruct (IH a) as (m & -> & Hm & Hma & Hall). exists m.
      split_and!; [done| |done|].
      * destruct Hm as [->|Hm]; [by left|right; by right].
      * intros b [[= ->]|Hb]%elem_of_cons; [by etrans|auto].
Qed.

(** On a non-empty array of finite numbers [Math.min] and [Math.max] are
    the least and the greatest element. *)
Lemma Math_min_Fin (xs : list number) :
  xs ≠ [] → Forall isFinite xs →
  ∃ m, Math_min xs = Fin m ∧ Fin m ∈ xs ∧ ∀ b, Fin b ∈ xs → m ≤ b.
Proof.
  intros Hne Hxs. destruct Hxs as [|x xs Hx Hxs]; [done|].
  apply isFinite_Fin in Hx as [q ->]. unfold Math_min. simpl.
  destruct (foldl_min2_Fin xs q Hxs) as (m & -> & Hm & Hmq & Hall). exists m.
  split_and!; [done| |].
  - destruct Hm as [->|Hm]; [left|by right].
  - intros b [[= ->]|Hb]%elem_of_cons; auto.
Qed.

Lemma Math_max_Fin (xs : list number) :
  xs ≠ [] → Forall isFinite xs →
  ∃ m, Math_max xs = Fin m ∧ Fin m ∈ xs ∧ ∀ b, Fin b ∈ xs → b ≤ m.
Proof.
  intros Hne Hxs. destruct Hxs as [|x xs Hx Hxs]; [done|].
  apply isFinite_Fin in Hx as [q ->]. unfold Math_max. simpl.
  destruct (foldl_max2_Fin xs q Hxs) as (m & -> & Hm & Hmq & Hall). exists m.
  split_and!; [done| |].
  - destruct Hm as [->|Hm]; [left|by right].
  - intros b [[= ->]|Hb]%elem_of_cons; auto.
Qed.

(** The scale in closed form, on a domain of positive width. *)
Lemma scaleData_Fin (v a b r1 r2 : Qc) :
  a ≠ b →
  scaleData (Fin v) (Fin a) (Fin b) (Fin r1) (Fin r2)
  = Fin (r1 + (r2 - r1) * (v - a) / (b - a)).
Proof.
  intros Hab. unfold scaleData. rewrite !sub_Fin. cbn [mul].
  rewrite div_Fin; [done|]. intros E. by apply Qcminus_eq_0 in E.
Qed.

End Numbers.

(** ** Number formatting *)

Section Formatting.











































End Formatting.

(** ** Scales and ticks *)

Section Scales.
Import SvgLineChart.




Lemma scaleData_endpoints (a b r1 r2 : Qc) :
  a ≠ b →
  scaleData (Fin a) (Fin a) (Fin b) (Fin r1) (Fin r2) = Fin r1 ∧
  scaleData (Fin b) (Fin a) (Fin b) (Fin r1) (Fin r2) = Fin r2.
Proof.
  intros Hab. rewrite !scaleData_Fin by done.
  split; f_equal; field; intros E; by apply Qcminus_eq_0 in E.
Qed.

Lemma chart_range_x : sub chartWidth padding = of_Z 650.
Proof. apply (bool_decide_unpack _). by vm_compute. Qed.

Lemma chart_range_y : sub chartHeight padding = of_Z 350.
Proof. apply (bool_decide_unpack _). by vm_compute. Qed.


(** The domain the memoised block computes is the one of the theorem
    above. *)
Lemma memo_domains `{Host} (data : list point) (metric : string) (sc : scales) :
  memo data metric = Some sc →
  data ≠ [] ∧
  xMin sc = Math_min (wavelength <$> data) ∧
  xMax sc = Math_max (wavelength <$> data) ∧
  yMin sc = Math_min (yValue metric <$> data) ∧
  yMax sc = Math_max (yValue metric <$> data) ∧
  xAxisTicks sc = ticks (xMin sc) (sub (xMax sc) (xMin sc)) ∧
  yAxisTicks sc = ticks (yMin sc) (sub (yMax sc) (yMin sc)) ∧
  yAxisLabel sc = metricLabel metric.
Proof.
  destruct data as [|d data]; [done|]. intros [= <-]. by split_and!.
Qed.

Lemma memo_is_Some `{Host} (data : list point) (metric : string) :
  data ≠ [] → is_Some (memo data metric).
Proof. destruct data; [done|]. intros _. by eexists. Qed.

(** The component on empty and on non-empty data: the placeholder, or the
    draw path on the scales the memoised block computed. *)
Lemma SvgLineChart_empty `{Host} (metric : string) (pmtList : list string)
    (colorMap : gmap string string) :
  SvgLineChart [] metric pmtList colorMap
  = Placeholder "No data selected or available to plot.".
Proof. reflexivity. Qed.

Lemma SvgLineChart_nonempty `{Host} (data : list point) (metric : string)
    (pmtList : list string) (colorMap : gmap string string) :
  data ≠ [] →
  ∃ sc, memo data metric = Some sc ∧
        SvgLineChart data metric pmtList colorMap = draw sc data metric pmtList colorMap.
Proof.
  intros Hne. destruct (memo_is_Some data metric Hne) as [sc Hsc]. exists sc.
  split; [done|]. unfold SvgLineChart. rewrite Hsc.
  rewrite bool_decide_eq_false_2; [done|]. by destruct data.
Qed.

(** The arithmetic of the tick loop, over an abstract divisor. *)
Lemma tick_formula (a b five k : Qc) :
  five ≠ 0 → a + (b - a) / five * k = a + k / five * (b - a).
Proof. intros. field; done. Qed.

Lemma tick_first (a b five : Qc) : a + Q2Qc (inject_Z 0) / five * (b - a) = a.
Proof.
  change (Q2Qc (inject_Z 0)) with (Q2Qc 0). unfold Qcdiv.
  rewrite Qcmult_0_l, Qcmult_0_l. apply Qcplus_0_r.
Qed.

Lemma tick_last (a b five : Qc) : five ≠ 0 → a + five / five * (b - a) = b.
Proof. intros. field; done. Qed.


Lemma ticks_Fin (a b : Qc) :
  ticks (Fin a) (sub (Fin b) (Fin a))
  = (λ k : Z, Fin (a + Q2Qc (inject_Z k) / Q2Qc (inject_Z 5) * (b - a)))
      <$> [0; 1; 2; 3; 4; 5]%Z.
Proof.
  unfold ticks. apply list_fmap_ext. intros _ k _.
  rewrite sub_Fin. unfold of_Z. rewrite div_Fin by done. cbn [add mul].
  f_equal. by apply tick_formula.
Qed.

Lemma ticks_ends (a b : Qc) :
  length (ticks (Fin a) (sub (Fin b) (Fin a))) = 6%nat ∧
  ticks (Fin a) (sub (Fin b) (Fin a)) !! 0%nat = Some (Fin a) ∧
  ticks (Fin a) (sub (Fin b) (Fin a)) !! 5%nat = Some (Fin b).
Proof.
  rewrite ticks_Fin. split; [done|]. split.
  - cbn [fmap list_fmap lookup list_lookup]. do 2 f_equal. apply tick_first.
  - cbn [fmap list_fmap lookup list_lookup]. do 2 f_equal. by apply tick_last.
Qed.


Lemma scaleData_zero_width (c r1 r2 : Qc) :
  scaleData (Fin c) (Fin c) (Fin c) (Fin r1) (Fin r2) = NaN.
Proof.
  unfold scaleData. rewrite !sub_Fin.
  replace (c - c) with (Q2Qc 0) by ring. cbn [mul].
  rewrite Qcmult_0_r. unfold div. by rewrite !bool_decide_eq_true_2.
Qed.

Lemma Math_min_max_constant (values : list number) (c : Qc) :
  values ≠ [] → Forall (λ x, x = Fin c) values →
  Math_min values = Fin c ∧ Math_max values = Fin c.
Proof.
  intros Hne Hc.
  assert (Hfin : Forall isFinite values).
  { eapply Forall_impl; [exact Hc|]. by intros x ->. }
  destruct (Math_min_Fin values Hne Hfin) as (a & -> & Ha & _).
  destruct (Math_max_Fin values Hne Hfin) as (b & -> & Hb & _).
  rewrite Forall_forall in Hc. split; [apply (Hc _ Ha)|apply (Hc _ Hb)].
Qed.

(** C3 (what the source does).  When all the values along an axis equal
    one constant, the domain has zero width and the scale is [0/0]: both
    chart scales, and the scale onto any pixel range, send the constant to
    [NaN], not to a pixel. *)
Theorem scaleData_degenerate_domain_is_NaN (values : list number) (c : Qc) :
  let min := Math_min (Fin c :: values) in
  let max := Math_max (Fin c :: values) in
  (Forall (λ x, x = Fin c) values → min = Fin c ∧ max = Fin c) ∧
  (∀ rangeMin rangeMax : Qc,
     scaleData (Fin c) (Fin c) (Fin c) (Fin rangeMin) (Fin rangeMax) = NaN) ∧
  xScale (Fin c) (Fin c) (Fin c) = NaN ∧
  yScale (Fin c) (Fin c) (Fin c) = NaN.
Proof.
  cbv zeta. split_and!.
  - intros Hc. apply Math_min_max_constant; [done|]. by constructor.
  - intros r1 r2. apply scaleData_zero_width.
  - unfold xScale. rewrite chart_range_x. apply scaleData_zero_width.
  - unfold yScale. rewrite chart_range_y. apply scaleData_zero_width.
Qed.

End Scales.

(** ** Sorting and sets *)

Section Sort.
Context {A : Type} (after : A → A → bool).

Lemma insert_Permutation (x : A) (l : list A) : insert after x l ≡ₚ x :: l.
Proof.
  induction l as [|y l IH]; simpl; [done|].
  destruct (after x y); [|done]. rewrite IH. apply Permutation_swap.
Qed.

Lemma sort_Permutation (l : list A) : sort after l ≡ₚ l.
Proof.
  induction l as [|x l IH]; simpl; [done|].
  fold (sort after l). by rewrite insert_Permutation, IH.
Qed.

Lemma elem_of_sort (x : A) (l : list A) : x ∈ sort after l ↔ x ∈ l.
Proof. by rewrite sort_Permutation. Qed.

Lemma length_sort (l : list A) : length (sort after l) = length l.
Proof. by rewrite sort_Permutation. Qed.

(** The comparison function is never positive both ways. *)
Hypothesis after_asym : ∀ x y, after x y = true → after y x = false.

Lemma insert_HdRel (z x : A) (l : list A) :
  before after z x → HdRel (before after) z l → HdRel (before after) z (insert after x l).
Proof.
  intros Hzx Hl. destruct l as [|y l]; simpl; [by constructor|].
  destruct (after x y); constructor; [|done]. by inversion Hl.
Qed.

Lemma insert_Sorted (x : A) (l : list A) :
  Sorted (before after) l → Sorted (before after) (insert after x l).
Proof.
  induction 1 as [|y l Hl IH Hy]; simpl; [by repeat constructor|].
  destruct (after x y) eqn:Hxy.
  - constructor; [done|]. apply insert_HdRel; [|done]. by apply after_asym.
  - constructor; [by constructor|]. by constructor.
Qed.

Lemma sort_Sorted (l : list A) : Sorted (before after) (sort after l).
Proof.
  induction l as [|x l IH]; simpl; [constructor|]. by apply insert_Sorted.
Qed.

End Sort.

Lemma Sorted_weaken {A} (R R' : relation A) (l : list A) :
  (∀ x y, R x y → R' x y) → Sorted R l → Sorted R' l.
Proof.
  intros HR. induction 1 as [|x l Hl IH Hx]; constructor; [done|].
  destruct Hx; constructor. by apply HR.
Qed.

Section Strings.

Lemma string_after_asym (x y : string) :
  string_after x y = true → string_after y x = false.
Proof.
  unfold string_after. intros Hxy%negb_true_iff. apply negb_false_iff.
  destruct (String.leb_total x y) as [H|H]; congruence.
Qed.

Lemma before_string_le (x y : string) : before string_after x y ↔ (x ≤ y)%string.
Proof.
  unfold before, string_after, String.le. rewrite negb_false_iff.
  by rewrite Is_true_true.
Qed.

Lemma sort_strings_Sorted (l : list string) :
  Sorted String.le (sort string_after l).
Proof.
  eapply Sorted_weaken; [|apply sort_Sorted, string_after_asym].
  intros x y. apply before_string_le.
Qed.

Lemma Set_add_all_spec (set l : list string) :
  NoDup set →
  NoDup (Set_add_all set l) ∧
  ∀ x, x ∈ Set_add_all set l ↔ x ∈ set ∨ x ∈ l.
Proof.
  revert set. induction l as [|y l IH]; intros set Hset; simpl.
  - split; [done|]. intros x. rewrite elem_of_nil. tauto.
  - case_bool_decide as Hy.
    + destruct (IH set Hset) as [Hnd Hel]. split; [done|].
      intros x. rewrite Hel, elem_of_cons. split; [tauto|].
      intros [?|[->|?]]; auto.
    + destruct (IH (set ++ [y])) as [Hnd Hel].
      { apply NoDup_app. split_and!; [done| |apply NoDup_singleton].
        intros x Hx ->%list_elem_of_singleton. done. }
      split; [done|]. intros x.
      rewrite Hel, elem_of_app, list_elem_of_singleton, elem_of_cons. tauto.
Qed.

Lemma new_Set_NoDup (l : list string) : NoDup (new_Set l).
Proof. apply Set_add_all_spec, NoDup_nil_2. Qed.

Lemma elem_of_new_Set (x : string) (l : list string) : x ∈ new_Set l ↔ x ∈ l.
Proof.
  unfold new_Set. destruct (Set_add_all_spec [] l (NoDup_nil_2)) as [_ ->].
  rewrite elem_of_nil. tauto.
Qed.

Lemma includes_spec (l : list string) (x : string) : includes l x ↔ x ∈ l.
Proof. apply bool_decide_spec. Qed.

End Strings.

(** The sorted list of the distinct sources of a data set. *)
Section UniquePmts.
Import App.

Lemma elem_of_uniquePmtsOf (data : list point) (pmt : string) :
  pmt ∈ uniquePmtsOf data ↔ pmt ∈ source_file <$> data.
Proof. unfold uniquePmtsOf. by rewrite elem_of_sort, elem_of_new_Set. Qed.

Lemma uniquePmtsOf_NoDup (data : list point) : NoDup (uniquePmtsOf data).
Proof.
  unfold uniquePmtsOf. rewrite sort_Permutation. apply new_Set_NoDup.
Qed.

Lemma uniquePmtsOf_Sorted (data : list point) : Sorted String.le (uniquePmtsOf data).
Proof. apply sort_strings_Sorted. Qed.

(** The list depends on the set of sources only. *)
Lemma uniquePmtsOf_ext (data data' : list point) :
  (∀ pmt, pmt ∈ source_file <$> data ↔ pmt ∈ source_file <$> data') →
  uniquePmtsOf data = uniquePmtsOf data'.
Proof.
  intros Hsame. apply (Sorted_unique String.le); try apply uniquePmtsOf_Sorted.
  apply NoDup_Permutation; try apply uniquePmtsOf_NoDup.
  intros pmt. by rewrite !elem_of_uniquePmtsOf.
Qed.

End UniquePmts.

(** ** Series grouping *)

Section Grouping.
Import SvgLineChart.

Lemma lt_asym (x y : number) : lt x y = true → lt y x = false.
Proof.
  destruct x, y; simpl; try done.
  rewrite bool_decide_eq_true, bool_decide_eq_false.
  intros Hxy Hyx. by apply (Qclt_not_le _ _ Hxy), Qclt_le_weak.
Qed.

Lemma sub_neg_swap (x y : number) : sub y x = neg (sub x y).
Proof.
  destruct x, y; simpl; try done. unfold sub. simpl. f_equal. ring.
Qed.

Lemma lt_neg_zero (x : number) : lt (of_Z 0) (neg x) = lt x (of_Z 0).
Proof.
  destruct x; simpl; try done.
  apply bool_decide_ext. change (Q2Qc (inject_Z 0)) with (Q2Qc 0).
  rewrite (Qclt_minus_iff' q 0). by replace (0 - q) with (- q) by ring.
Qed.

Lemma by_wavelength_asym (a b : point) :
  by_wavelength a b = true → by_wavelength b a = false.
Proof.
  unfold by_wavelength, gt. rewrite (sub_neg_swap (wavelength a) (wavelength b)).
  rewrite lt_neg_zero. apply lt_asym.
Qed.

Lemma before_by_wavelength (a b : point) :
  isFinite (wavelength a) → isFinite (wavelength b) →
  before by_wavelength a b → le (wavelength a) (wavelength b).
Proof.
  unfold before, by_wavelength, gt.
  intros [p ->]%isFinite_Fin [q ->]%isFinite_Fin. simpl.
  rewrite bool_decide_eq_false. intros Hpq.
  apply negb_prop_intro. rewrite bool_decide_spec. intros Hqp. apply Hpq.
  change (Q2Qc (inject_Z 0)) with (Q2Qc 0). by apply Qcminus_pos.
Qed.

Lemma pmtGroup_Permutation (data : list point) (pmt : string) :
  pmtGroup data pmt ≡ₚ filter (λ d, source_file d = pmt) data.
Proof. apply sort_Permutation. Qed.

Lemma elem_of_pmtGroup (data : list point) (pmt : string) (d : point) :
  d ∈ pmtGroup data pmt ↔ d ∈ data ∧ source_file d = pmt.
Proof. rewrite pmtGroup_Permutation, list_elem_of_filter. tauto. Qed.

Lemma pmtGroup_nonempty (data : list point) (pmt : string) :
  pmtGroup data pmt ≠ [] ↔ pmt ∈ source_file <$> data.
Proof.
  rewrite list_elem_of_fmap. split.
  - intros Hne. destruct (pmtGroup data pmt) as [|d g] eqn:Hg; [done|].
    assert (Hd : d ∈ pmtGroup data pmt) by (rewrite Hg; left).
    apply elem_of_pmtGroup in Hd as [Hd <-]. by exists d.
  - intros (d & -> & Hd) Hg.
    assert (Hin : d ∈ pmtGroup data (source_file d)) by by apply elem_of_pmtGroup.
    rewrite Hg in Hin. by apply elem_of_nil in Hin.
Qed.

Lemma pmtGroup_Sorted (data : list point) (pmt : string) :
  Forall (λ d, isFinite (wavelength d)) data →
  Sorted (λ a b, le (wavelength a) (wavelength b)) (pmtGroup data pmt).
Proof.
  intros Hfin.
  assert (Hg : Forall (λ d, isFinite (wavelength d)) (pmtGroup data pmt)).
  { apply Forall_forall. intros d [Hd _]%elem_of_pmtGroup.
    by apply (proj1 (Forall_forall _ _) Hfin). }
  pose proof (sort_Sorted by_wavelength by_wavelength_asym
                (filter (λ d, source_file d = pmt) data)) as Hs.
  fold (pmtGroup data pmt) in Hs.
  induction Hs as [|d g Hs IH Hd]; [constructor|].
  apply Forall_cons in Hg as [Hd_fin Hg]. constructor; [by apply IH|].
  destruct Hd as [|d' g' Hdd']; constructor.
  apply Forall_cons in Hg as [Hd'_fin _]. by apply before_by_wavelength.
Qed.

Lemma foldl_group_lookup (data : list point) (pmtList : list string)
    (acc : gmap string (list point)) (pmt : string) :
  foldl (λ acc pmt, <[pmt := pmtGroup data pmt]> acc) acc pmtList !! pmt
  = if decide (pmt ∈ pmtList) then Some (pmtGroup data pmt) else acc !! pmt.
Proof.
  revert acc. induction pmtList as [|p l IH]; intros acc; simpl.
  - destruct (decide (pmt ∈ [])) as [Hnil%elem_of_nil|]; done.
  - rewrite IH. destruct (decide (pmt ∈ l)) as [Hl|Hl].
    + destruct (decide (pmt ∈ p :: l)) as [|Hn]; [done|].
      exfalso. apply Hn. by right.
    + destruct (decide (p = pmt)) as [->|Hne].
      * rewrite lookup_insert_eq.
        destruct (decide (pmt ∈ pmt :: l)) as [|Hn]; [done|].
        exfalso. apply Hn. left.
      * rewrite lookup_insert_ne by done.
        destruct (decide (pmt ∈ p :: l)) as [[->|?]%elem_of_cons|]; done.
Qed.

(** The grouping has one entry for each selected PMT, present in the data
    or not: the stable sort by wavelength of the PMT's points. *)
Lemma dataByPmt_lookup (data : list point) (pmtList : list string) (pmt : string) :
  dataByPmt data pmtList !! pmt
  = if decide (pmt ∈ pmtList) then Some (pmtGroup data pmt) else None.
Proof. unfold dataByPmt. by rewrite foldl_group_lookup, lookup_empty. Qed.

(** Filtering to the selection keeps all the points of a selected PMT. *)
Lemma filteredData_pmt (st : App.state) (pmt : string) :
  pmt ∈ App.selectedPmts st →
  filter (λ d, source_file d = pmt) (App.filteredData st)
  = filter (λ d, source_file d = pmt) (App.allData st).
Proof.
  intros Hsel. unfold App.filteredData.
  induction (App.allData st) as [|d data IH]; [done|].
  rewrite !filter_cons. destruct (decide (includes (App.selectedPmts st) (source_file d))) as [Hd|Hd].
  - rewrite filter_cons. by rewrite IH.
  - rewrite IH. rewrite decide_False; [done|].
    intros Heq. apply Hd, includes_spec. by rewrite Heq.
Qed.

(** C4, as the source has it.  For every snapshot and every selection,
    the grouping has exactly one entry for each selected source and none
    for an unselected one.  The entry of a selected source holds all the
    snapshot's points of that source, stably sorted by wavelength, so
    non-decreasing when the wavelengths are finite; it is empty exactly
    when the source is absent from the snapshot. *)
Theorem series_grouping (st : App.state) (pmt : string) :
  let groups := dataByPmt (App.filteredData st) (App.selectedPmts st) in
  (is_Some (groups !! pmt) ↔ pmt ∈ App.selectedPmts st) ∧
  ∀ group, groups !! pmt = Some group →
    group = pmtGroup (App.allData st) pmt ∧
    group ≡ₚ filter (λ d, source_file d = pmt) (App.allData st) ∧
    (group ≠ [] ↔ pmt ∈ source_file <$> App.allData st) ∧
    (Forall (λ d, isFinite (wavelength d)) (App.allData st) →
     Sorted (λ a b, le (wavelength a) (wavelength b)) group).
Proof.
  cbv zeta. rewrite dataByPmt_lookup. split.
  - destruct (decide (pmt ∈ App.selectedPmts st)) as [Hsel|Hsel]; split.
    + done.
    + by eexists.
    + by intros [? ?].
    + done.
  - intros group Hgroup.
    destruct (decide (pmt ∈ App.selectedPmts st)) as [Hsel|]; [|done].
    injection Hgroup as <-.
    assert (Heq : pmtGroup (App.filteredData st) pmt = pmtGroup (App.allData st) pmt).
    { unfold pmtGroup. by rewrite filteredData_pmt. }
    rewrite Heq. split_and!; [done|apply pmtGroup_Permutation|apply pmtGroup_nonempty|].
    apply pmtGroup_Sorted.
Qed.

End Grouping.

(** ** Rendering *)

Section Rendering.
Import SvgLineChart.
Context `{Host}.

Lemma mapi_result_Ok {A B} (f : nat → A → result B) (i : nat) (l : list A) (ys : list B) :
  mapi_result f i l = Ok ys →
  length ys = length l ∧
  ∀ k y, ys !! k = Some y → ∃ x, l !! k = Some x ∧ f (i + k)%nat x = Ok y.
Proof.
  revert i ys. induction l as [|x l IH]; intros i ys; simpl.
  - intros [= <-]. split; [done|]. intros k y Hk. by rewrite lookup_nil in Hk.
  - destruct (f i x) as [y0|e] eqn:Hx; simpl; [|done].
    destruct (mapi_result f (S i) l) as [ys0|e] eqn:Hl; simpl; [|done].
    intros [= <-]. destruct (IH _ _ Hl) as [Hlen Hys]. split; [simpl; by rewrite Hlen|].
    intros [|k] y Hk; simpl in Hk.
    + injection Hk as <-. exists x. by rewrite Nat.add_0_r.
    + destruct (Hys k y Hk) as (x' & Hx' & Hfx'). exists x'. split; [done|].
      by rewrite Nat.add_succ_r.
Qed.

Lemma mapi_result_Throw {A B} (f : nat → A → result B) (i : nat) (l : list A) (e : error) :
  mapi_result f i l = Throw e →
  ∃ k x, l !! k = Some x ∧ f (i + k)%nat x = Throw e.
Proof.
  revert i. induction l as [|x l IH]; intros i; simpl; [done|].
  destruct (f i x) as [y0|e0] eqn:Hx; simpl.
  - destruct (mapi_result f (S i) l) as [ys0|e1] eqn:Hl; simpl; [done|].
    intros [= ->]. destruct (IH _ Hl) as (k & x' & Hk & Hfx'). exists (S k), x'.
    split; [done|]. by rewrite Nat.add_succ_r.
  - intros [= ->]. exists 0%nat, x. by rewrite Nat.add_0_r.
Qed.

Lemma mapi_result_total {A B} (f : nat → A → result B) (i : nat) (l : list A) :
  (∀ k x, x ∈ l → ∃ y, f k x = Ok y) → ∃ ys, mapi_result f i l = Ok ys.
Proof.
  intros Hf. destruct (mapi_result f i l) as [ys|e] eqn:Hl; [by eexists|].
  apply mapi_result_Throw in Hl as (k & x & Hk & Hfx).
  destruct (Hf (i + k)%nat x) as [y Hy]; [by eapply list_elem_of_lookup_2|congruence].
Qed.

(** The label falls back to the empty string outside the enumeration. *)
Lemma metricLabel_known (opt : axis_option) :
  opt ∈ Y_AXIS_OPTIONS → metricLabel (key opt) = label opt.
Proof.
  unfold Y_AXIS_OPTIONS. rewrite !elem_of_cons, elem_of_nil.
  intros [->|[->|[->|[]]]]; reflexivity.
Qed.


(** Under a listed metric every point holds a number. *)
Lemma prop_known_metric (d : point) (metric : string) :
  metric ∈ key <$> Y_AXIS_OPTIONS → ∃ n, prop d metric = VNumber n.
Proof.
  unfold Y_AXIS_OPTIONS. simpl. rewrite !elem_of_cons, elem_of_nil.
  intros [->|[->|[->|[]]]]; by eexists.
Qed.

Lemma tooltip_Ok (pmt metric : string) (d : point) (t : string) :
  tooltip pmt metric d = Ok t ↔
  ∃ v, prop d metric = VNumber v ∧
       t = pmt +:+ ": Wavelength=" +:+ toFixed 1 (wavelength d) +:+ "nm, "
           +:+ metric +:+ "=" +:+ toExponential 3 v.
Proof.
  unfold tooltip. destruct (prop d metric) as [|v|s]; simpl; split.
  - done.
  - by intros (v & ? & _).
  - intros [= <-]. by exists v.
  - by intros (v' & [= <-] & ->).
  - done.
  - by intros (v & ? & _).
Qed.

Lemma tooltip_Throw (pmt metric : string) (d : point) (e : error) :
  tooltip pmt metric d = Throw e → ∀ v, prop d metric ≠ VNumber v.
Proof. unfold tooltip. by destruct (prop d metric). Qed.

(** What a drawn series holds: the vertices of its group in order, and
    one marker per vertex, at the vertex, with the tooltip of its point. *)
Lemma draw_series_Ok (sc : scales) (metric : string)
    (groups : gmap string (list point)) (colorMap : gmap string string)
    (index : nat) (pmt : string) (s : series) :
  draw_series sc metric groups colorMap index pmt = Ok s →
  pmt_key s = pmt ∧
  ∃ group, groups !! pmt = Some group ∧
    linePath s = (λ d, (xScale (xMin sc) (xMax sc) (wavelength d),
                        yScale (yMin sc) (yMax sc) (yValue metric d))) <$> group ∧
    length (markers s) = length group ∧
    ∀ k m, markers s !! k = Some m →
      ∃ d, group !! k = Some d ∧
           linePath s !! k = Some (cx m, cy m) ∧
           fill m = stroke s ∧
           tooltip pmt metric d = Ok (title m).
Proof.
  unfold draw_series. destruct (groups !! pmt) as [group|]; [|done].
  match goal with |- context [mapi_result ?f 0%nat group] =>
    destruct (mapi_result f 0%nat group) as [ms|e] eqn:Hms end; simpl; [|done].
  intros [= <-]. simpl. split; [done|]. exists group. split; [done|]. split; [done|].
  apply mapi_result_Ok in Hms as [Hlen Hms]. split; [done|].
  intros k m Hk. destruct (Hms k m Hk) as (d & Hd & Hm). exists d. split; [done|].
  destruct (tooltip pmt metric d) as [t|e] eqn:Ht; simpl in Hm; [|done].
  injection Hm as <-. simpl. split_and!; [|done|done].
  by rewrite list_lookup_fmap, Hd.
Qed.

Lemma draw_series_Throw (sc : scales) (metric : string)
    (groups : gmap string (list point)) (colorMap : gmap string string)
    (index : nat) (pmt : string) (e : error) :
  draw_series sc metric groups colorMap index pmt = Throw e →
  groups !! pmt = None ∨
  ∃ group d, groups !! pmt = Some group ∧ d ∈ group ∧ ∀ v, prop d metric ≠ VNumber v.
Proof.
  unfold draw_series. destruct (groups !! pmt) as [group|]; [|by left].
  match goal with |- context [mapi_result ?f 0%nat group] =>
    destruct (mapi_result f 0%nat group) as [ms|e'] eqn:Hms end; simpl; [done|].
  intros _. right. apply mapi_result_Throw in Hms as (k & d & Hd & Hm).
  exists group, d. split; [done|]. split; [by eapply list_elem_of_lookup_2|].
  destruct (tooltip pmt metric d) as [t|e''] eqn:Ht; simpl in Hm; [done|].
  by eapply tooltip_Throw.
Qed.

(** What a rendered chart holds. *)
Lemma SvgLineChart_Chart (data : list point) (metric : string)
    (pmtList : list string) (colorMap : gmap string string) (c : chart) :
  SvgLineChart data metric pmtList colorMap = Chart c →
  ∃ sc, memo data metric = Some sc ∧
    heading c = metricLabel metric +:+ " vs. Wavelength (nm)" ∧
    yTitle c = metricLabel metric ∧
    yGrid c = (λ tick, {| at_pixel := yScale (yMin sc) (yMax sc) tick;
                          text := toExponential 2 tick |}) <$> yAxisTicks sc ∧
    xGrid c = (λ tick, {| at_pixel := xScale (xMin sc) (xMax sc) tick;
                          text := toFixed 0 tick |}) <$> xAxisTicks sc ∧
    pmt_key <$> lines c = pmtList ∧
    ∀ k s, lines c !! k = Some s →
      ∃ pmt, pmtList !! k = Some pmt ∧
        draw_series sc metric (dataByPmt data pmtList) colorMap k pmt = Ok s.
Proof.
  intros Hc. assert (data ≠ []) as Hne by (by intros ->).
  destruct (SvgLineChart_nonempty data metric pmtList colorMap Hne) as (sc & Hmemo & Heq).
  rewrite Heq in Hc. revert Hc. unfold draw.
  destruct (mapi_result _ 0%nat pmtList) as [ls|e] eqn:Hls; [|done].
  intros [= <-]. simpl. exists sc.
  pose proof (memo_domains _ _ _ Hmemo) as (_ & _ & _ & _ & _ & _ & _ & Hlabel).
  rewrite Hlabel. split_and!; try done.
  - apply mapi_result_Ok in Hls as [Hlen Hls]. apply list_eq. intros k.
    rewrite list_lookup_fmap. destruct (ls !! k) as [s|] eqn:Hk; simpl.
    + destruct (Hls k s Hk) as (pmt & -> & Hs). by apply draw_series_Ok in Hs as [-> _].
    + symmetry. apply lookup_ge_None. rewrite <- Hlen. by apply lookup_ge_None.
  - intros k s Hk. apply mapi_result_Ok in Hls as [_ Hls]. by apply Hls.
Qed.

(** The draw path ends in a chart or in an exception, never in the
    placeholder; the exception is the [TypeError] of a tooltip whose point
    holds no number under the metric. *)
Lemma draw_not_Placeholder (sc : scales) (data : list point) (metric : string)
    (pmtList : list string) (colorMap : gmap string string) (msg : string) :
  draw sc data metric pmtList colorMap ≠ Placeholder msg.
Proof. unfold draw. by destruct (mapi_result _ _ _). Qed.

Lemma draw_Thrown (sc : scales) (data : list point) (metric : string)
    (pmtList : list string) (colorMap : gmap string string) (e : error) :
  draw sc data metric pmtList colorMap = Thrown e →
  ∃ d, d ∈ data ∧ source_file d ∈ pmtList ∧ ∀ v, prop d metric ≠ VNumber v.
Proof.
  unfold draw.
  destruct (mapi_result _ 0%nat pmtList) as [ls|e'] eqn:Hls; [done|]. intros _.
  apply mapi_result_Throw in Hls as (k & pmt & Hk & Hs).
  assert (Hpmt : pmt ∈ pmtList) by by eapply list_elem_of_lookup_2.
  apply draw_series_Throw in Hs as [Hnone|(group & d & Hgroup & Hd & Hprop)].
  - rewrite dataByPmt_lookup, decide_True in Hnone; done.
  - rewrite dataByPmt_lookup, decide_True in Hgroup by done. injection Hgroup as <-.
    apply elem_of_pmtGroup in Hd as [Hd <-]. by exists d.
Qed.

Lemma draw_total (sc : scales) (data : list point) (metric : string)
    (pmtList : list string) (colorMap : gmap string string) :
  (∀ d, d ∈ data → source_file d ∈ pmtList → ∃ v, prop d metric = VNumber v) →
  ∃ c, draw sc data metric pmtList colorMap = Chart c.
Proof.
  intros Hnum. destruct (draw sc data metric pmtList colorMap) as [msg|c|e] eqn:Hdraw.
  - by apply draw_not_Placeholder in Hdraw.
  - by eexists.
  - apply draw_Thrown in Hdraw as (d & Hd & Hsel & Hprop).
    destruct (Hnum d Hd Hsel) as [v Hv]. by apply Hprop in Hv.
Qed.

End Rendering.

(** ** The two paths of the chart *)

Section Paths.
Import SvgLineChart.
Context `{Host}.

(** C7.  On an empty data set the memoised block computes nothing (it
    returns the empty object) and the component returns the placeholder
    with its message.  On any other data set the component is the draw
    path on the computed scales, which never returns the placeholder and,
    for a listed metric, returns a chart. *)
Theorem empty_data_renders_placeholder (data : list point) (metric : string)
    (pmtList : list string) (colorMap : gmap string string) :
  (data = [] →
   memo data metric = None ∧
   SvgLineChart data metric pmtList colorMap
   = Placeholder "No data selected or available to plot.") ∧
  (data ≠ [] →
   ∃ sc, memo data metric = Some sc ∧
     SvgLineChart data metric pmtList colorMap
     = draw sc data metric pmtList colorMap ∧
     (∀ msg, SvgLineChart data metric pmtList colorMap ≠ Placeholder msg) ∧
     (metric ∈ key <$> Y_AXIS_OPTIONS →
      ∃ c, SvgLineChart data metric pmtList colorMap = Chart c)).
Proof.
  split.
  - by intros ->.
  - intros Hne.
    destruct (SvgLineChart_nonempty data metric pmtList colorMap Hne) as (sc & Hsc & ->).
    exists sc. split_and!; [done|done| |].
    + intros msg. apply draw_not_Placeholder.
    + intros Hmetric. apply draw_total. intros d _ _. by apply prop_known_metric.
Qed.


(** The scales and ticks as the rendered chart shows them: on finite
    wavelengths of positive spread the six vertical grid lines run from
    pixel 50, labelled with the least wavelength, to pixel 650, labelled
    with the greatest. *)
Lemma chart_x_grid_spans_plot (data : list point) (metric : string)
    (pmtList : list string) (colorMap : gmap string string) (c : chart) :
  SvgLineChart data metric pmtList colorMap = Chart c →
  Forall (λ d, isFinite (wavelength d)) data →
  lt (Math_min (wavelength <$> data)) (Math_max (wavelength <$> data)) →
  length (xGrid c) = 6%nat ∧
  xGrid c !! 0%nat
  = Some {| at_pixel := of_Z 50;
            text := toFixed 0 (Math_min (wavelength <$> data)) |} ∧
  xGrid c !! 5%nat
  = Some {| at_pixel := of_Z 650;
            text := toFixed 0 (Math_max (wavelength <$> data)) |}.
Proof.
  intros (sc & Hmemo & _ & _ & _ & HxGrid & _)%SvgLineChart_Chart Hfin Hlt.
  pose proof (memo_domains _ _ _ Hmemo) as (Hne & HxMin & HxMax & _ & _ & Hticks & _).
  assert (Hne' : wavelength <$> data ≠ []) by by destruct data.
  assert (Hfin' : Forall isFinite (wavelength <$> data)) by by apply Forall_fmap.
  destruct (Math_min_Fin _ Hne' Hfin') as (a & Ha & _).
  destruct (Math_max_Fin _ Hne' Hfin') as (b & Hb & _).
  rewrite Ha, Hb in Hlt |- *. apply lt_Fin in Hlt.
  destruct (scaleData_endpoints a b (Q2Qc (inject_Z 50)) (Q2Qc (inject_Z 650))
              (Qclt_not_eq _ _ Hlt)) as [Hlo Hhi].
  destruct (ticks_ends a b) as (Hlen & Hfirst & Hlast).
  rewrite HxGrid, Hticks, HxMin, HxMax, Ha, Hb.
  rewrite length_fmap, !list_lookup_fmap, Hfirst, Hlast. cbn [fmap option_fmap option_map].
  unfold xScale. rewrite chart_range_x. unfold padding, of_Z. by rewrite Hlo, Hhi.
Qed.

(** When all the wavelengths are one constant, every vertex of every
    series is drawn at the horizontal position [NaN]. *)
Lemma degenerate_wavelengths_draw_at_NaN (data : list point) (metric : string)
    (pmtList : list string) (colorMap : gmap string string) (c : chart) (w : Qc) :
  SvgLineChart data metric pmtList colorMap = Chart c →
  Forall (λ d, wavelength d = Fin w) data →
  ∀ s vertex, s ∈ lines c → vertex ∈ linePath s → vertex.1 = NaN.
Proof.
  intros (sc & Hmemo & _ & _ & _ & _ & _ & Hlines)%SvgLineChart_Chart Hw.
  pose proof (memo_domains _ _ _ Hmemo) as (Hne & HxMin & HxMax & _).
  destruct (Math_min_max_constant (wavelength <$> data) w) as [Hmin Hmax].
  { by destruct data. }
  { by apply Forall_fmap. }
  rewrite Hmin in HxMin. rewrite Hmax in HxMax.
  intros s vertex (k & Hk)%list_elem_of_lookup_1 Hvertex.
  destruct (Hlines k s Hk) as (pmt & Hpmt & Hs).
  apply draw_series_Ok in Hs as (_ & group & Hgroup & Hpath & _).
  rewrite dataByPmt_lookup in Hgroup.
  rewrite decide_True in Hgroup by by eapply list_elem_of_lookup_2.
  injection Hgroup as <-. rewrite Hpath in Hvertex.
  apply list_elem_of_fmap in Hvertex as (d & -> & [Hd _]%elem_of_pmtGroup).
  rewrite Forall_forall in Hw. cbn [fst]. rewrite HxMin, HxMax, (Hw d Hd).
  unfold xScale. rewrite chart_range_x. apply scaleData_zero_width.
Qed.

End Paths.

(** ** The host: colours and selection *)

Section Selection.
Import App SvgLineChart.

Lemma PLOT_COLORS_lookup (index : nat) :
  PLOT_COLORS !! (index mod length PLOT_COLORS)%nat = Some (plot_color index).
Proof.
  unfold plot_color.
  destruct (lookup_lt_is_Some_2 PLOT_COLORS (index mod length PLOT_COLORS)%nat)
    as [c ->]; [|done].
  by apply Nat.mod_upper_bound.
Qed.

Lemma foldl_color_lookup (l : list string) (from : nat)
    (acc : gmap string string) (pmt : string) :
  NoDup l →
  foldl (λ acc '(index, pmt), <[pmt := plot_color index]> acc) acc
        (imap (λ index pmt, ((from + index)%nat, pmt)) l) !! pmt
  = match list_find (λ p, p = pmt) l with
    | Some (i, _) => Some (plot_color (from + i))
    | None => acc !! pmt
    end.
Proof.
  intros Hl. revert from acc.
  induction Hl as [|p l Hp Hl IH]; intros from acc; [done|].
  rewrite imap_cons. cbn [foldl list_find].
  rewrite (imap_ext _ (λ index pmt, ((S from + index)%nat, pmt))).
  2:{ intros i x _. simpl. f_equal. lia. }
  rewrite IH. destruct (decide (p = pmt)) as [->|Hne].
  - rewrite (proj2 (list_find_None _ _)); simpl.
    + by rewrite lookup_insert_eq.
    + apply Forall_forall. by intros x Hx ->.
  - destruct (list_find (λ p, p = pmt) l) as [[i x]|]; simpl.
    + f_equal. f_equal. lia.
    + by rewrite lookup_insert_ne.
Qed.

(** The colour of a PMT is the palette entry at its rank among the sorted
    PMTs, modulo the palette length. *)
Lemma colorMapOf_lookup (l : list string) (i : nat) (pmt : string) :
  NoDup l → l !! i = Some pmt → colorMapOf l !! pmt = Some (plot_color i).
Proof.
  intros Hl Hi. unfold colorMapOf.
  rewrite (foldl_color_lookup l 0 ∅ pmt Hl).
  destruct (list_find (λ p, p = pmt) l) as [[j x]|] eqn:Hfind.
  - apply list_find_Some in Hfind as (Hj & -> & _). simpl.
    by rewrite (NoDup_lookup l i j pmt Hl Hi Hj).
  - apply list_find_None in Hfind.
    by destruct (proj1 (Forall_forall _ _) Hfind pmt (list_elem_of_lookup_2 _ _ _ Hi)).
Qed.

Lemma colorMapOf_None (l : list string) (pmt : string) :
  NoDup l → pmt ∉ l → colorMapOf l !! pmt = None.
Proof.
  intros Hl Hpmt. unfold colorMapOf.
  rewrite (foldl_color_lookup l 0 ∅ pmt Hl).
  destruct (list_find (λ p, p = pmt) l) as [[j x]|] eqn:Hfind; [|done].
  apply list_find_Some in Hfind as (Hj & -> & _).
  by apply list_elem_of_lookup_2 in Hj.
Qed.

(** C5.  The colour map gives every distinct source of the snapshot, and
    no other, the palette colour at the source's index in the sorted list
    of distinct sources, modulo the palette length.  That list is sorted,
    free of duplicates and holds exactly the sources of the snapshot; so
    two states whose snapshots have the same set of sources have the same
    colour map, whatever their selections. *)
Theorem color_assignment_by_sorted_index (st : state) :
  (∀ i pmt, uniquePmts st !! i = Some pmt →
            pmtColorMap st !! pmt = PLOT_COLORS !! (i mod length PLOT_COLORS)%nat) ∧
  (∀ pmt, is_Some (pmtColorMap st !! pmt) ↔ pmt ∈ source_file <$> allData st) ∧
  (Sorted String.le (uniquePmts st) ∧ NoDup (uniquePmts st) ∧
   ∀ pmt, pmt ∈ uniquePmts st ↔ pmt ∈ source_file <$> allData st) ∧
  (∀ st', (∀ pmt, pmt ∈ source_file <$> allData st' ↔ pmt ∈ source_file <$> allData st) →
          pmtColorMap st' = pmtColorMap st).
Proof.
  unfold pmtColorMap, uniquePmts. split_and!.
  - intros i pmt Hi. rewrite PLOT_COLORS_lookup.
    by apply colorMapOf_lookup; [apply uniquePmtsOf_NoDup|].
  - intros pmt. rewrite <- elem_of_uniquePmtsOf. split.
    + intros [c Hc]. destruct (decide (pmt ∈ uniquePmtsOf (allData st))) as [|Hn]; [done|].
      rewrite colorMapOf_None in Hc; [done|apply uniquePmtsOf_NoDup|done].
    + intros (i & Hi)%list_elem_of_lookup_1. exists (plot_color i).
      by apply colorMapOf_lookup; [apply uniquePmtsOf_NoDup|].
  - apply uniquePmtsOf_Sorted.
  - apply uniquePmtsOf_NoDup.
  - intros pmt. apply elem_of_uniquePmtsOf.
  - intros st' Hsame. by rewrite (uniquePmtsOf_ext _ _ Hsame).
Qed.

(** The default selection and the validation of a previous one. *)
Lemma onSnapshot_selection (data : list point) (st : state) :
  selectedPmts (onSnapshot data st)
  = if bool_decide (selectedPmts st = [])
    then take 5 (uniquePmtsOf data)
    else filter (λ p, p ∈ uniquePmtsOf data) (selectedPmts st).
Proof.
  unfold onSnapshot. cbn [selectedPmts].
  destruct (selectedPmts st) as [|p prev] eqn:Hprev.
  - simpl. destruct (Nat.min_spec (length (uniquePmtsOf data)) 5) as [[Hlt ->]|[Hle ->]].
    + by rewrite !take_ge by lia.
    + done.
  - simpl. apply list_filter_iff. intros x. apply includes_spec.
Qed.

(** C6.  After a snapshot the selection holds only sources of the
    snapshot.  A previously selected source that the snapshot lacks is
    gone from the selection and from the series of the chart; the update
    raises nothing and leaves the error state as it was. *)
Theorem snapshot_drops_absent_sources `{Host} (data : list point) (st : state) :
  let st' := onSnapshot data st in
  allData st' = data ∧
  error st' = error st ∧
  (∀ pmt, pmt ∈ selectedPmts st' → pmt ∈ source_file <$> allData st') ∧
  (∀ pmt, pmt ∈ selectedPmts st → pmt ∉ (source_file <$> data) →
          (pmt ∉ selectedPmts st') ∧
          ∀ c, render_chart st' = Chart c → pmt ∉ (pmt_key <$> lines c)).
Proof.
  cbv zeta.
  assert (Hsub : ∀ pmt, pmt ∈ selectedPmts (onSnapshot data st) → pmt ∈ source_file <$> data).
  { intros pmt. rewrite onSnapshot_selection. case_bool_decide.
    - intros Hpmt. apply elem_of_uniquePmtsOf. by apply (subseteq_take 5).
    - intros [Hpmt _]%list_elem_of_filter. by apply elem_of_uniquePmtsOf. }
  split_and!; [done|done|done|].
  intros pmt _ Habsent. assert (Hgone : pmt ∉ selectedPmts (onSnapshot data st)).
  { intros Hin. by apply Habsent, Hsub. }
  split; [done|]. intros c (sc & _ & _ & _ & _ & _ & Hkeys & _)%SvgLineChart_Chart.
  by rewrite Hkeys.
Qed.


End Selection.

(** The selection handed to the chart is always valid: in every state the
    application can reach, the selected PMTs are PMTs of the current data
    and the selected metric is a listed one. *)
Section Reachable.
Import App.

Lemma reachable_valid (st : state) :
  reachable st →
  (∀ pmt, pmt ∈ selectedPmts st → pmt ∈ source_file <$> allData st) ∧
  selectedMetric st ∈ key <$> Y_AXIS_OPTIONS.
Proof.
  induction 1 as [|st st' _ [IHsel IHmetric] Hstep].
  - split; [|by left]. intros pmt Hpmt. by apply elem_of_nil in Hpmt.
  - destruct Hstep as [data st|msg st|pmt st Hpmt|st|st|opt st Hopt]; simpl.
    + split; [|done]. intros pmt. rewrite <- elem_of_uniquePmtsOf.
      case_bool_decide.
      * apply (subseteq_take _ (uniquePmtsOf data)).
      * intros [Hpmt _]%list_elem_of_filter. by apply includes_spec.
    + done.
    + split; [|done]. intros p. case_match.
      * intros [_ Hp]%list_elem_of_filter. by apply IHsel.
      * intros [Hp| ->%list_elem_of_singleton]%elem_of_app; [by apply IHsel|].
        by apply elem_of_uniquePmtsOf.
    + split; [|done]. intros pmt. apply elem_of_uniquePmtsOf.
    + split; [|done]. intros pmt Hpmt. by apply elem_of_nil in Hpmt.
    + split; [done|]. change (key opt ∈ key <$> Y_AXIS_OPTIONS).
      by apply list_elem_of_fmap_2.
Qed.

End Reachable.

(** ** Tooltips *)

Section Tooltips.
Import SvgLineChart.
Context `{Host}.


End Tooltips.

(** ** Worked examples on the seed data *)

Section Worked.
Import SvgLineChart Examples.

(** Closed facts are decided by evaluation. *)
Ltac evaluate := apply (bool_decide_unpack _); vm_compute; exact I.




(** C3 on the chart: a single point makes both domains degenerate, and
    its vertex is drawn at [(NaN, NaN)]. *)
Example degenerate_chart_vertex :
  ∃ c, SvgLineChart (H := seed_host) [seed_point] "light_response" ["J23-1062.txt"] ∅
       = Chart c ∧
       linePath <$> lines c = [[(NaN, NaN)]].
Proof. eexists. split; [vm_compute; reflexivity|]. reflexivity. Qed.

(** C4 fails as worded: a selected PMT that the snapshot lacks has a
    group, the empty one, and a series in the chart. *)
Lemma grouping_keeps_absent_selection :
  dataByPmt (App.filteredData stale_selection) (App.selectedPmts stale_selection)
    !! "A24-1080.txt" = Some [] ∧
  ("A24-1080.txt" ∉ source_file <$> App.allData stale_selection) ∧
  (∃ c, App.render_chart (H := seed_host) stale_selection = Chart c ∧
        pmt_key <$> lines c = ["J23-1062.txt"; "A24-1080.txt"] ∧
        length <$> (linePath <$> lines c) = [5; 0]%nat) ∧
  ¬ grouping_as_specified stale_selection.
Proof.
  assert (Hgroup : dataByPmt (App.filteredData stale_selection)
                     (App.selectedPmts stale_selection) !! "A24-1080.txt" = Some []).
  { rewrite dataByPmt_lookup. by vm_compute. }
  assert (Habsent : "A24-1080.txt" ∉ (source_file <$> App.allData stale_selection))
    by evaluate.
  split_and!; [done|done| |].
  - eexists. split; [vm_compute; reflexivity|]. split; reflexivity.
  - intros Hspec. destruct (proj1 (Hspec "A24-1080.txt")) as [_ Hin]; [|done].
    rewrite Hgroup. by eexists.
Qed.





(** The seed data on doubles: the wavelengths span 205.988 to 333.739 and
    the scale sends the two ends to 50 and 650 exactly; the sixth tick is
    the maximum; a domain of zero width gives [NaN]. *)
Example seed_data_on_doubles :
  Binary64.seed_min_scales_to_50 = true ∧
  Binary64.seed_max_scales_to_650 = true ∧
  Binary64.seed_last_tick_is_max = true ∧
  Binary64.seed_zero_width_is_NaN = true.
Proof. split_and!; vm_compute; reflexivity. Qed.

(** The host on the seed data: the first snapshot selects both PMTs and
    colours them by sorted rank; a later snapshot without [A24-1080.txt]
    drops it from the selection. *)
Example seed_first_snapshot :
  App.selectedPmts (App.onSnapshot initialData App.initial)
  = ["A24-1080.txt"; "J23-1062.txt"] ∧
  App.pmtColorMap (App.onSnapshot initialData App.initial) !! "A24-1080.txt"
  = Some "#ef4444" ∧
  App.pmtColorMap (App.onSnapshot initialData App.initial) !! "J23-1062.txt"
  = Some "#3b82f6" ∧
  App.selectedPmts (App.onSnapshot (take 5 initialData)
                                   (App.onSnapshot initialData App.initial))
  = ["J23-1062.txt"].
Proof. split_and!; vm_compute; reflexivity. Qed.

End Worked.

(** ** The drawn geometry *)

Section Geometry.
Import SvgLineChart.
Context `{Host}.





(** Every vertex of a rendered series is the image of a point of the
    series' PMT under the two scales of the memoised block. *)
Lemma series_vertex (data : list point) (metric : string)
    (pmtList : list string) (colorMap : gmap string string)
    (c : chart) (s : series) (vertex : number * number) :
  SvgLineChart data metric pmtList colorMap = Chart c →
  s ∈ lines c → vertex ∈ linePath s →
  ∃ sc d, memo data metric = Some sc ∧ d ∈ data ∧ source_file d = pmt_key s ∧
    linePath s = (λ d, (xScale (xMin sc) (xMax sc) (wavelength d),
                        yScale (yMin sc) (yMax sc) (yValue metric d)))
                 <$> pmtGroup data (pmt_key s) ∧
    vertex = (xScale (xMin sc) (xMax sc) (wavelength d),
              yScale (yMin sc) (yMax sc) (yValue metric d)).
Proof.
  intros (sc & Hmemo & _ & _ & _ & _ & _ & Hlines)%SvgLineChart_Chart
         (k & Hk)%list_elem_of_lookup_1 Hvertex.
  destruct (Hlines k s Hk) as (pmt & Hpmt & Hs).
  apply draw_series_Ok in Hs as (Hkey & group & Hgroup & Hpath & _).
  rewrite dataByPmt_lookup in Hgroup.
  rewrite decide_True in Hgroup by by eapply list_elem_of_lookup_2.
  injection Hgroup as <-. rewrite Hpath in Hvertex.
  apply list_elem_of_fmap in Hvertex as (d & -> & [Hd Hsrc]%elem_of_pmtGroup).
  exists sc, d. rewrite Hkey. by split_and!.
Qed.















(** The series of a chart are those of the selection, each the image of
    its group. *)
Lemma chart_line_paths (data : list point) (metric : string)
    (pmtList : list string) (colorMap : gmap string string) (c : chart) :
  SvgLineChart data metric pmtList colorMap = Chart c →
  ∃ sc, memo data metric = Some sc ∧
    linePath <$> lines c
    = (λ pmt, (λ d, (xScale (xMin sc) (xMax sc) (wavelength d),
                     yScale (yMin sc) (yMax sc) (yValue metric d)))
              <$> pmtGroup data pmt) <$> pmtList ∧
    length <$> (markers <$> lines c) = (λ pmt, length (pmtGroup data pmt)) <$> pmtList.
Proof.
  intros (sc & Hmemo & _ & _ & _ & _ & Hkeys & Hlines)%SvgLineChart_Chart.
  exists sc. split; [done|].
  assert (Hlen : length (lines c) = length pmtList).
  { by rewrite <- Hkeys, length_fmap. }
  assert (Hline : ∀ k s, lines c !! k = Some s →
            ∃ pmt, pmtList !! k = Some pmt ∧
              linePath s = (λ d, (xScale (xMin sc) (xMax sc) (wavelength d),
                                  yScale (yMin sc) (yMax sc) (yValue metric d)))
                           <$> pmtGroup data pmt ∧
              length (markers s) = length (pmtGroup data pmt)).
  { intros k s Hk. destruct (Hlines k s Hk) as (pmt & Hpmt & Hs). exists pmt.
    apply draw_series_Ok in Hs as (_ & group & Hgroup & Hpath & Hmarkers & _).
    rewrite dataByPmt_lookup in Hgroup.
    rewrite decide_True in Hgroup by by eapply list_elem_of_lookup_2.
    by injection Hgroup as <-. }
  split; apply list_eq; intros k; rewrite !list_lookup_fmap.
  - destruct (lines c !! k) as [s|] eqn:Hk; simpl.
    + destruct (Hline k s Hk) as (pmt & -> & -> & _). done.
    + apply lookup_ge_None in Hk. rewrite Hlen in Hk.
      apply lookup_ge_None in Hk. by rewrite Hk.
  - destruct (lines c !! k) as [s|] eqn:Hk; simpl.
    + destruct (Hline k s Hk) as (pmt & -> & _ & ->). done.
    + apply lookup_ge_None in Hk. rewrite Hlen in Hk.
      apply lookup_ge_None in Hk. by rewrite Hk.
Qed.

(** Grouping by the entries of a duplicate-free list that covers all the
    sources is a partition of the data. *)
Lemma pmtGroup_other (data : list point) (p pmt : string) :
  pmt ≠ p →
  pmtGroup (filter (λ d, source_file d ≠ p) data) pmt = pmtGroup data pmt.
Proof.
  intros Hne. unfold pmtGroup. f_equal. rewrite list_filter_filter.
  apply list_filter_iff. intros d. split; [tauto|]. intros ->. done.
Qed.

Lemma groups_partition (data : list point) (pmtList : list string) :
  NoDup pmtList →
  (∀ d, d ∈ data → source_file d ∈ pmtList) →
  mjoin (pmtGroup data <$> pmtList) ≡ₚ data.
Proof.
  intros Hnodup. revert data.
  induction Hnodup as [|p l Hp Hl IH]; intros data Hcover.
  - destruct data as [|d data]; [done|].
    destruct (not_elem_of_nil (source_file d)). apply Hcover. left.
  - cbn [fmap list_fmap mjoin list_join].
    assert (Hext : pmtGroup (filter (λ d, source_file d ≠ p) data) <$> l
                   = pmtGroup data <$> l).
    { apply list_fmap_ext. intros _ pmt Hpmt%list_elem_of_lookup_2.
      apply pmtGroup_other. by intros ->. }
    etrans; [|apply (filter_app_complement (λ d, source_file d = p) data)].
    apply Permutation_app; [apply pmtGroup_Permutation|].
    rewrite <- Hext. apply IH.
    intros d [Hsrc Hd]%list_elem_of_filter.
    pose proof (Hcover d Hd) as [Heq|Hin]%elem_of_cons; done.
Qed.

Lemma fmap_join {A B} (f : A → B) (ls : list (list A)) :
  f <$> mjoin ls = mjoin (fmap f <$> ls).
Proof.
  induction ls as [|l ls IH]; [done|].
  change (f <$> l ++ mjoin ls = (f <$> l) ++ mjoin (fmap f <$> ls)).
  by rewrite fmap_app, IH.
Qed.

(** X5.  When the selection list has no duplicate and names the source of
    every point of the data, the chart draws every point exactly once: the
    vertices of all its series together are a rearrangement of the scaled
    points of the data, and it has as many markers as the data has
    points. *)
Theorem every_point_drawn_once (data : list point) (metric : string)
    (pmtList : list string) (colorMap : gmap string string) (c : chart) :
  SvgLineChart data metric pmtList colorMap = Chart c →
  NoDup pmtList →
  (∀ d, d ∈ data → source_file d ∈ pmtList) →
  mjoin (linePath <$> lines c)
  ≡ₚ (λ d, (xScale (Math_min (wavelength <$> data)) (Math_max (wavelength <$> data))
                   (wavelength d),
            yScale (Math_min (yValue metric <$> data)) (Math_max (yValue metric <$> data))
                   (yValue metric d))) <$> data ∧
  length (mjoin (markers <$> lines c)) = length data.
Proof.
  intros (sc & Hmemo & Hpaths & Hmarkers)%chart_line_paths Hnodup Hcover.
  pose proof (memo_domains _ _ _ Hmemo) as (_ & <- & <- & <- & <- & _).
  pose proof (groups_partition data pmtList Hnodup Hcover) as Hpart.
  split.
  - rewrite Hpaths.
    match goal with |- _ ≡ₚ ?f <$> data =>
      transitivity (f <$> mjoin (pmtGroup data <$> pmtList)); [|by rewrite Hpart]
    end.
    by rewrite fmap_join, <- list_fmap_compose.
  - rewrite length_join, Hmarkers.
    rewrite <- (Permutation_length Hpart), length_join.
    by rewrite <- list_fmap_compose.
Qed.


(** A value that is not a number spoils the whole axis. *)
Lemma foldl_min2_NaN (xs : list number) : foldl min2 NaN xs = NaN.
Proof. induction xs as [|x xs IH]; [done|]. simpl. exact IH. Qed.

Lemma foldl_max2_NaN (xs : list number) : foldl max2 NaN xs = NaN.
Proof. induction xs as [|x xs IH]; [done|]. simpl. exact IH. Qed.

Lemma min2_NaN_r (x : number) : min2 x NaN = NaN.
Proof. by destruct x. Qed.

Lemma max2_NaN_r (x : number) : max2 x NaN = NaN.
Proof. by destruct x. Qed.

Lemma Math_min_max_NaN (xs : list number) :
  NaN ∈ xs → Math_min xs = NaN ∧ Math_max xs = NaN.
Proof.
  unfold Math_min, Math_max. generalize PosInf NegInf.
  induction xs as [|x xs IH]; intros lo hi Hin; [by apply elem_of_nil in Hin|].
  apply elem_of_cons in Hin as [<-|Hin]; cbn [foldl].
  - by rewrite min2_NaN_r, max2_NaN_r, foldl_min2_NaN, foldl_max2_NaN.
  - by apply IH.
Qed.

Lemma scaleData_NaN_domain (value domainMax rangeMin rangeMax : number) :
  scaleData value NaN domainMax rangeMin rangeMax = NaN.
Proof.
  unfold scaleData, sub. cbn [neg].
  assert (add value NaN = NaN) as -> by by destruct value.
  assert (∀ x, mul x NaN = NaN) as -> by by intros [].
  cbn [div]. by destruct rangeMin.
Qed.

(** X6.  One point whose metric value is [NaN] makes the vertical axis
    useless for all: every horizontal grid line is at [NaN] and labelled
    [NaN], and the [y] of every vertex of every series is [NaN]. *)
Theorem NaN_value_blanks_vertical_axis (data : list point) (metric : string)
    (pmtList : list string) (colorMap : gmap string string) (c : chart) :
  SvgLineChart data metric pmtList colorMap = Chart c →
  (∃ d, d ∈ data ∧ yValue metric d = NaN) →
  Forall (λ line, at_pixel line = NaN ∧ text line = "NaN") (yGrid c) ∧
  ∀ s vertex, s ∈ lines c → vertex ∈ linePath s → vertex.2 = NaN.
Proof.
  intros Hc (d & Hd & HNaN).
  assert (Hy : ∀ sc, memo data metric = Some sc → yMin sc = NaN).
  { intros sc Hmemo.
    pose proof (memo_domains _ _ _ Hmemo) as (_ & _ & _ & -> & _).
    apply Math_min_max_NaN. rewrite <- HNaN. by apply list_elem_of_fmap_2. }
  split.
  - pose proof Hc as (sc & Hmemo & _ & _ & -> & _)%SvgLineChart_Chart.
    pose proof (memo_domains _ _ _ Hmemo) as (_ & _ & _ & _ & _ & _ & -> & _).
    rewrite (Hy sc Hmemo). unfold ticks. rewrite <- list_fmap_compose.
    apply Forall_fmap, Forall_forall. intros k _. cbn [compose at_pixel text].
    split; [|done]. unfold yScale. apply scaleData_NaN_domain.
  - intros s vertex Hs Hvertex.
    destruct (series_vertex _ _ _ _ _ _ _ Hc Hs Hvertex) as (sc & d' & Hmemo & _ & _ & _ & ->).
    cbn [snd]. unfold yScale. rewrite (Hy sc Hmemo). apply scaleData_NaN_domain.
Qed.

End Geometry.

(** ** Colours of the series *)

Section Colours.
Import SvgLineChart App.
Context `{Host}.

Lemma plot_color_nonempty (index : nat) : plot_color index ≠ "".
Proof.
  pose proof (PLOT_COLORS_lookup index) as Hc%list_elem_of_lookup_2.
  assert (Hall : Forall (λ col, col ≠ "") PLOT_COLORS) by (by repeat constructor).
  by apply (proj1 (Forall_forall _ _) Hall).
Qed.

Lemma draw_series_stroke (sc : scales) (metric : string)
    (groups : gmap string (list point)) (colorMap : gmap string string)
    (index : nat) (pmt : string) (s : series) :
  draw_series sc metric groups colorMap index pmt = Ok s →
  stroke s = match colorMap !! pmt with
             | Some col => if bool_decide (col = "") then plot_color index else col
             | None => plot_color index
             end ∧
  Forall (λ m, fill m = stroke s) (markers s).
Proof.
  intros Hs.
  pose proof (draw_series_Ok _ _ _ _ _ _ _ Hs) as (_ & group' & _ & _ & _ & Hm).
  split.
  - clear Hm. revert Hs. unfold draw_series.
    destruct (groups !! pmt) as [group|]; [|done].
    destruct (mapi_result _ 0%nat group) as [ms|e]; simpl; [|done].
    by intros [= <-].
  - apply Forall_forall. intros m (k & Hk)%list_elem_of_lookup_1.
    by destruct (Hm k m Hk) as (_ & _ & _ & Hfill & _).
Qed.

(** X7.  When every selected PMT is a source of the data, every series of
    the chart, with all its markers, has the colour that the colour map
    gives its PMT: the palette colour at the PMT's rank among the sorted
    sources, whatever the place of the PMT in the selection. *)
Theorem series_coloured_by_sorted_rank (st : state) (c : chart) :
  (∀ pmt, pmt ∈ selectedPmts st → pmt ∈ source_file <$> allData st) →
  render_chart st = Chart c →
  ∀ s, s ∈ lines c →
    ∃ rank, uniquePmts st !! rank = Some (pmt_key s) ∧
      pmtColorMap st !! pmt_key s = Some (stroke s) ∧
      stroke s = plot_color rank ∧
      Forall (λ m, fill m = plot_color rank) (markers s).
Proof.
  intros Hvalid (sc & _ & _ & _ & _ & _ & Hkeys & Hlines)%SvgLineChart_Chart
         s (k & Hk)%list_elem_of_lookup_1.
  destruct (Hlines k s Hk) as (pmt & Hpmt & Hs).
  pose proof (draw_series_Ok _ _ _ _ _ _ _ Hs) as [Hkey _].
  apply draw_series_stroke in Hs as [Hstroke Hfill]. subst pmt.
  assert (Hin : pmt_key s ∈ uniquePmts st).
  { apply elem_of_uniquePmtsOf, Hvalid. by eapply list_elem_of_lookup_2. }
  apply list_elem_of_lookup_1 in Hin as (rank & Hrank). exists rank.
  pose proof (colorMapOf_lookup _ _ _ (uniquePmtsOf_NoDup (allData st)) Hrank) as Hcol.
  fold (uniquePmts st) in Hcol. fold (pmtColorMap st) in Hcol.
  rewrite Hcol in Hstroke.
  rewrite bool_decide_eq_false_2 in Hstroke by apply plot_color_nonempty.
  rewrite Hstroke in Hfill |- *. by split_and!.
Qed.

End Colours.

(** ** The selection over time *)

Section Validity.
Import SvgLineChart App Lifecycle.
Context `{Host}.

Lemma filter_all {A} (P : A → Prop) `{!∀ x, Decision (P x)} (l : list A) :
  Forall P l → filter P l = l.
Proof.
  induction 1 as [|x l Hx _ IH]; [done|].
  by rewrite filter_cons_True, IH.
Qed.

Lemma valid_initial : valid App.initial.
Proof.
  split_and!; [constructor| |by left].
  intros pmt Hpmt. by apply elem_of_nil in Hpmt.
Qed.

Lemma valid_onSnapshot (data : list point) (st : App.state) :
  valid st → valid (onSnapshot data st).
Proof.
  intros (Hnodup & _ & Hmetric). split_and!; [| |done].
  - rewrite onSnapshot_selection. case_bool_decide.
    + eapply sublist_NoDup; [apply uniquePmtsOf_NoDup|apply sublist_take].
    + by apply NoDup_filter.
  - intros pmt. rewrite onSnapshot_selection, <- elem_of_uniquePmtsOf.
    case_bool_decide.
    + apply (subseteq_take _ (uniquePmtsOf data)).
    + by intros [Hpmt _]%list_elem_of_filter.
Qed.

Lemma valid_handlePmtToggle (pmt : string) (st : App.state) :
  pmt ∈ uniquePmts st → valid st → valid (handlePmtToggle pmt st).
Proof.
  intros Hpmt (Hnodup & Hsel & Hmetric). split_and!; [| |done]; simpl.
  - destruct (includes (selectedPmts st) pmt) eqn:Hin.
    + by apply NoDup_filter.
    + apply NoDup_app. split_and!; [done| |apply NoDup_singleton].
      intros p Hp ->%list_elem_of_singleton.
      apply includes_spec in Hp. by rewrite Hin in Hp.
  - intros p. case_match.
    + intros [_ Hp]%list_elem_of_filter. by apply Hsel.
    + intros [Hp| ->%list_elem_of_singleton]%elem_of_app; [by apply Hsel|].
      by apply elem_of_uniquePmtsOf.
Qed.

Lemma valid_handleSelectAll (st : App.state) :
  valid st → valid (handleSelectAll st).
Proof.
  intros (_ & _ & Hmetric). split_and!; [| |done]; simpl.
  - apply uniquePmtsOf_NoDup.
  - intros pmt. apply elem_of_uniquePmtsOf.
Qed.

Lemma valid_handleClearSelection (st : App.state) :
  valid st → valid (handleClearSelection st).
Proof.
  intros (_ & _ & Hmetric). split_and!; [constructor| |done].
  intros pmt Hpmt. by apply elem_of_nil in Hpmt.
Qed.

Lemma valid_setSelectedMetric (option : axis_option) (st : App.state) :
  option ∈ Y_AXIS_OPTIONS → valid st → valid (setSelectedMetric (key option) st).
Proof.
  intros Hoption (Hnodup & Hsel & _). split_and!; [done..|].
  change (key option ∈ key <$> Y_AXIS_OPTIONS). by apply list_elem_of_fmap_2.
Qed.

Lemma step_valid (st st' : App.state) : App.step st st' → valid st → valid st'.
Proof.
  intros [data ?|message ?|pmt ? Hpmt|?|?|option ? Hoption].
  - apply valid_onSnapshot.
  - done.
  - by apply valid_handlePmtToggle.
  - apply valid_handleSelectAll.
  - apply valid_handleClearSelection.
  - by apply valid_setSelectedMetric.
Qed.

(** X8.  Whatever the snapshots and the clicks, the selection never holds
    a PMT twice, holds only sources of the current data, and the metric is
    a listed one. *)
Theorem reachable_selection_is_valid (st : App.state) :
  App.reachable st → valid st.
Proof.
  induction 1 as [|st st' _ IH Hstep]; [apply valid_initial|].
  by apply (step_valid st).
Qed.

(** The filtered data of a valid state is empty exactly when the
    selection is. *)
Lemma filteredData_nil (st : App.state) :
  selectedPmts st = [] → filteredData st = [].
Proof.
  intros Hsel. unfold filteredData. rewrite Hsel.
  induction (allData st) as [|d data IH]; [done|].
  rewrite filter_cons. by rewrite decide_False by (by intros ?%includes_spec%elem_of_nil).
Qed.






(** X11.  A snapshot that leaves something selected can be delivered
    again without any effect. *)
Theorem snapshot_redelivery (data : list point) (st : App.state) :
  selectedPmts (onSnapshot data st) ≠ [] →
  onSnapshot data (onSnapshot data st) = onSnapshot data st.
Proof.
  intros Hne.
  assert (Hsel : selectedPmts (onSnapshot data (onSnapshot data st))
                 = selectedPmts (onSnapshot data st)).
  { rewrite (onSnapshot_selection data (onSnapshot data st)).
    rewrite bool_decide_eq_false_2 by done.
    apply filter_all, Forall_forall. intros pmt.
    rewrite onSnapshot_selection. case_bool_decide.
    - apply (subseteq_take _ (uniquePmtsOf data)).
    - by intros [? _]%list_elem_of_filter. }
  revert Hsel. unfold onSnapshot at 1 3 4. cbn [selectedPmts selectedMetric error].
  by intros ->.
Qed.

(** X12.  Clearing the selection gives the placeholder, and lasts only
    until the next snapshot, which selects the first five PMTs again. *)
Theorem cleared_selection_is_reset (data : list point) (st : App.state) :
  render_chart (handleClearSelection st)
  = Placeholder "No data selected or available to plot." ∧
  selectedPmts (onSnapshot data (handleClearSelection st))
  = take 5 (uniquePmtsOf data).
Proof.
  split.
  - unfold render_chart. rewrite filteredData_nil by done. apply SvgLineChart_empty.
  - by rewrite onSnapshot_selection.
Qed.

Lemma filteredData_all (st : App.state) :
  filteredData (handleSelectAll st) = allData st.
Proof.
  unfold filteredData. cbn [handleSelectAll set_selection selectedPmts allData].
  apply filter_all, Forall_forall. intros d Hd.
  apply includes_spec, elem_of_uniquePmtsOf. by apply list_elem_of_fmap_2.
Qed.

(** X13.  After "Select All" the chart draws the whole data: nothing is
    filtered out, the series are in the sorted order of the PMTs, and the
    series at place [k] has the palette colour [k]. *)
Theorem select_all_draws_everything (st : App.state) (c : chart) :
  render_chart (handleSelectAll st) = Chart c →
  filteredData (handleSelectAll st) = allData st ∧
  pmt_key <$> lines c = uniquePmts st ∧
  ∀ k s, lines c !! k = Some s → stroke s = plot_color k.
Proof.
  intros Hc. split; [apply filteredData_all|].
  pose proof (SvgLineChart_Chart _ _ _ _ _ Hc)
    as (sc & _ & _ & _ & _ & _ & Hkeys & Hlines).
  split; [done|]. intros k s Hk.
  destruct (Hlines k s Hk) as (pmt & Hpmt & Hs).
  apply draw_series_stroke in Hs as [-> _].
  cbn [handleSelectAll set_selection selectedPmts] in Hpmt.
  change (pmtColorMap (handleSelectAll st)) with (colorMapOf (uniquePmtsOf (allData st))).
  rewrite (colorMapOf_lookup _ k pmt (uniquePmtsOf_NoDup _) Hpmt).
  by rewrite bool_decide_eq_false_2 by apply plot_color_nonempty.
Qed.

End Validity.

(** ** The page and its start-up *)

Section Page.
Import SvgLineChart Lifecycle.
Context `{Host}.

Lemma render_MainPage (st : state) (p : page) :
  render st = MainPage p → shows_main st ∧ p = main_page st.
Proof.
  unfold render, shows_main, truthy.
  destruct (isAuthReady st), (App.isLoading (app st)); simpl; try done.
  destruct (App.error (app st)) as [message|]; [|by intros [= <-]].
  case_bool_decide; [by intros [= <-]|done].
Qed.

Lemma valid_setError (message : string) (a : App.state) :
  valid a → valid (setError message a).
Proof. done. Qed.

Lemma valid_setIsLoading (loading : bool) (a : App.state) :
  valid a → valid (setIsLoading loading a).
Proof. done. Qed.



(** X14.  Without a Firebase configuration the page never leaves the
    loading screen: the start-up records the error message and stops, and
    the error screen that would show the message is never reached. *)
Theorem missing_config_stays_loading (st : state) :
  reachable false st →
  render st = LoadingScreen ∧
  (st = initial ∨
   App.error (app st)
   = Some "Firebase configuration is missing. Cannot initialize application.").
Proof.
  intros Hreach.
  assert (Hinv : db st = false ∧ isAuthReady st = false ∧
            (st = initial ∨
             App.error (app st)
             = Some "Firebase configuration is missing. Cannot initialize application.")).
  { revert st Hreach.
    apply (rtc_ind_r (λ st, db st = false ∧ isAuthReady st = false ∧
            (st = initial ∨
             App.error (app st)
             = Some "Firebase configuration is missing. Cannot initialize application."))).
    - split_and!; [done..|by left].
    - intros st st' _ Hstep (Hdb & Hready & IH).
      assert (Hmain : ¬ shows_main st).
      { unfold shows_main. rewrite Hready. by intros []. }
      destruct Hstep as [thrown ?|message ? _ Hd|uid ? _ Hd|? _ Hd|data ? Hd _
                        |message ? Hd _|pmt ? Hm _|? Hm|? Hm|option ? Hm _];
        try (by rewrite Hdb in Hd); try (by destruct (Hmain Hm)).
      split_and!; [exact Hdb|exact Hready|by right]. }
  destruct Hinv as (_ & Hready & Herror). split; [|done].
  unfold render. by rewrite Hready.
Qed.

Lemma truthy_append (prefix message : string) :
  prefix ≠ "" → truthy (Some (prefix +:+ message)).
Proof.
  intros Hprefix. unfold truthy. apply Is_true_true, negb_true_iff.
  apply bool_decide_eq_false_2. by destruct prefix.
Qed.

Lemma step_truthy (firebaseConfig : bool) (st st' : state) :
  step firebaseConfig st st' →
  truthy (App.error (app st)) → truthy (App.error (app st')).
Proof.
  assert (Hmain : ∀ st, shows_main st → truthy (App.error (app st)) → False).
  { intros s. unfold shows_main.
    destruct (truthy (App.error (app s))); [|done].
    by rewrite andb_false_r. }
  intros [thrown ?|message ? _ _|uid ? _ _|? _ _|data ? _ _|message ? _ _
         |pmt ? Hm _|? Hm|? Hm|option ? Hm _] Herror;
    try (by destruct (Hmain _ Hm Herror)); try done;
    try (by apply truthy_append).
  unfold initialize. destruct firebaseConfig; simpl; [|done].
  destruct thrown as [message|]; [|done]. by apply truthy_append.
Qed.

(** X15.  An error is never cleared: once a message is set, every later
    state still has one, and the main page is never rendered again. *)
Theorem error_is_never_cleared (firebaseConfig : bool) (st st' : state) :
  rtc (step firebaseConfig) st st' →
  truthy (App.error (app st)) →
  truthy (App.error (app st')) ∧ ∀ p, render st' ≠ MainPage p.
Proof.
  intros Hsteps Herror.
  assert (Herror' : truthy (App.error (app st'))).
  { revert st' Hsteps.
    apply (rtc_ind_r (λ st', truthy (App.error (app st')))); [done|].
    intros st1 st2 _ Hstep IH. by apply (step_truthy _ _ _ Hstep). }
  split; [done|]. intros p [Hmain _]%render_MainPage.
  unfold shows_main in Hmain. destruct (truthy (App.error (app st'))); [|done].
  by rewrite andb_false_r in Hmain.
Qed.


End Page.

(** ** Stability of the sort *)

Section Stability.
Import SvgLineChart.
Context `{Host}.





End Stability.

(** ** Seeding *)

Section Seed.
Import Seeding.

Lemma writes_cons (index : nat) (d : point) (l : list (nat * point))
    (collection : gmap string point) :
  writes ((index, d) :: l) collection = writes l (setDoc (entry_id index) d collection).
Proof. done. Qed.

Lemma writes_other (l : list (nat * point)) (collection : gmap string point) (k : string) :
  k ∉ (λ x, entry_id x.1) <$> l → writes l collection !! k = collection !! k.
Proof.
  revert collection. induction l as [|[index d] l IH]; intros collection Hk; [done|].
  apply not_elem_of_cons in Hk as [Hx Hl]. rewrite writes_cons, IH by done.
  unfold setDoc. by rewrite lookup_insert_ne.
Qed.

Lemma writes_agree (l : list (nat * point)) (c c' : gmap string point) :
  (∀ k, k ∉ (λ x, entry_id x.1) <$> l → c !! k = c' !! k) →
  writes l c = writes l c'.
Proof.
  revert c c'. induction l as [|[index d] l IH]; intros c c' Hc.
  - apply map_eq. intros k. apply Hc. apply not_elem_of_nil.
  - rewrite !writes_cons. apply IH. intros k Hk. unfold setDoc.
    destruct (decide (entry_id index = k)) as [<-|Hne].
    + by rewrite !lookup_insert_eq.
    + rewrite !lookup_insert_ne by done. apply Hc.
      apply not_elem_of_cons. by split.
Qed.

Lemma seed_identifiers (data : list point) :
  (λ x : nat * point, entry_id x.1) <$> imap (λ index d, (index, d)) data
  = entry_id <$> seq 0 (length data).
Proof.
  apply list_eq. intros k. rewrite !list_lookup_fmap, list_lookup_imap.
  destruct (data !! k) as [d|] eqn:Hk; simpl.
  - rewrite lookup_seq_lt; [done|]. by eapply lookup_lt_Some.
  - rewrite lookup_seq_ge; [done|]. by apply lookup_ge_None.
Qed.

(** X18.  Seeding is idempotent, thanks to the predictable identifiers:
    writing the seed documents over a seeded collection changes nothing,
    documents under other identifiers are never touched, and the seed
    check run a second time finds nothing to do. *)
Theorem seeding_is_idempotent (data : list point) (collection : gmap string point) :
  seed data (seed data collection) = seed data collection ∧
  (∀ k, k ∉ entry_id <$> seq 0 (length data) →
        seed data collection !! k = collection !! k) ∧
  seedIfEmpty data (seedIfEmpty data collection) = seedIfEmpty data collection.
Proof.
  split_and!.
  - apply writes_agree. intros k Hk. by apply writes_other.
  - intros k Hk. apply writes_other. by rewrite seed_identifiers.
  - unfold seedIfEmpty. destruct (decide (collection = ∅)) as [->|Hne].
    + destruct (decide (seed data ∅ = ∅)) as [Hempty|_]; [|done].
      rewrite Hempty. exact Hempty.
    + by rewrite decide_False.
Qed.

End Seed.

(** ** Axis labels *)

Section Labels.
Import SvgLineChart.
Context `{Host}.









End Labels.

(** ** Exceptions *)

Section Exceptions.
Import SvgLineChart Examples.
Context `{Host}.

(** X20.  One point of a selected PMT that holds no number under the
    metric key is enough for the render to end in an exception: its
    tooltip cannot be formatted. *)
Theorem point_without_number_throws (data : list point) (metric : string)
    (pmtList : list string) (colorMap : gmap string string) (d : point) :
  d ∈ data → source_file d ∈ pmtList →
  (∀ v, prop d metric ≠ VNumber v) →
  ∃ e, SvgLineChart data metric pmtList colorMap = Thrown e.
Proof.
  intros Hd Hsel Hprop.
  assert (Hne : data ≠ []) by (intros ->; by apply elem_of_nil in Hd).
  destruct (SvgLineChart data metric pmtList colorMap) as [message|c|e] eqn:Hc;
    [| |by exists e].
  - destruct (SvgLineChart_nonempty data metric pmtList colorMap Hne) as (sc & _ & Heq).
    rewrite Heq in Hc. by apply draw_not_Placeholder in Hc.
  - exfalso.
    pose proof (SvgLineChart_Chart _ _ _ _ _ Hc)
      as (sc & _ & _ & _ & _ & _ & Hkeys & Hlines).
    apply list_elem_of_lookup_1 in Hsel as (k & Hk).
    assert (Hlt : (k < length (lines c))%nat).
    { rewrite <- (length_fmap pmt_key), Hkeys. by eapply lookup_lt_Some. }
    apply lookup_lt_is_Some in Hlt as (s & Hs).
    destruct (Hlines k s Hs) as (pmt & Hpmt & Hseries).
    rewrite Hk in Hpmt. injection Hpmt as <-.
    apply draw_series_Ok in Hseries as (_ & group & Hgroup & _ & Hlen & Hmarkers).
    rewrite dataByPmt_lookup in Hgroup.
    rewrite decide_True in Hgroup by by eapply list_elem_of_lookup_2.
    injection Hgroup as <-.
    assert (Hin : d ∈ pmtGroup data (source_file d)) by by apply elem_of_pmtGroup.
    apply list_elem_of_lookup_1 in Hin as (j & Hj).
    assert (Hjlt : (j < length (markers s))%nat).
    { rewrite Hlen. by eapply lookup_lt_Some. }
    apply lookup_lt_is_Some in Hjlt as (m & Hm).
    destruct (Hmarkers j m Hm) as (d' & Hd' & _ & _ & Htip).
    rewrite Hj in Hd'. injection Hd' as <-.
    apply tooltip_Ok in Htip as (v & Hv & _). by apply Hprop in Hv.
Qed.

End Exceptions.

(** ** Markers *)

Section Markers.
Import SvgLineChart.
Context `{Host}.

(** X21.  The markers of a series sit on the vertices of its polyline,
    one on each, in the same order. *)
Theorem markers_sit_on_vertices (data : list point) (metric : string)
    (pmtList : list string) (colorMap : gmap string string) (c : chart) :
  SvgLineChart data metric pmtList colorMap = Chart c →
  ∀ s, s ∈ lines c → (λ m, (cx m, cy m)) <$> markers s = linePath s.
Proof.
  intros (sc & _ & _ & _ & _ & _ & _ & Hlines)%SvgLineChart_Chart
         s (k & Hk)%list_elem_of_lookup_1.
  destruct (Hlines k s Hk) as (pmt & _ & Hs).
  apply draw_series_Ok in Hs as (_ & group & _ & Hpath & Hlen & Hm).
  assert (Hlen' : length (markers s) = length (linePath s)).
  { by rewrite Hpath, length_fmap. }
  apply list_eq. intros i. rewrite list_lookup_fmap.
  destruct (markers s !! i) as [m|] eqn:Hi; simpl.
  - by destruct (Hm i m Hi) as (_ & _ & -> & _).
  - symmetry. apply lookup_ge_None. rewrite <- Hlen'. by apply lookup_ge_None.
Qed.

End Markers.

(** ** Further worked examples *)

Section SeedExamples.
Import SvgLineChart App Lifecycle Examples.

Ltac evaluate := apply (bool_decide_unpack _); vm_compute; exact I.





(** X5 on the seed data with both PMTs selected. *)
Lemma every_point_drawn_once_witness :
  NoDup ["J23-1062.txt"; "A24-1080.txt"] ∧
  ∃ c, SvgLineChart (H := seed_host) initialData "light_response"
         ["J23-1062.txt"; "A24-1080.txt"] ∅ = Chart c ∧
    length (mjoin (markers <$> lines c)) = length initialData.
Proof.
  assert (H2 : NoDup ["J23-1062.txt"; "A24-1080.txt"]) by evaluate.
  split; [exact H2|]. eexists.
  match goal with |- ?A ∧ _ => assert (H1 : A) by (vm_compute; reflexivity) end.
  split; [exact H1|].
  apply (every_point_drawn_once (H := seed_host) _ _ _ _ _ H1 H2).
  apply (proj1 (Forall_forall _ _)). evaluate.
Defined.

(** X7 on the state after the first snapshot of the seed data. *)
Lemma series_coloured_by_sorted_rank_witness :
  ∃ c, render_chart (H := seed_host) (onSnapshot initialData App.initial) = Chart c ∧
    ∀ s, s ∈ lines c →
      ∃ rank, uniquePmts (onSnapshot initialData App.initial) !! rank = Some (pmt_key s) ∧
        pmtColorMap (onSnapshot initialData App.initial) !! pmt_key s = Some (stroke s) ∧
        stroke s = plot_color rank ∧
        Forall (λ m, fill m = plot_color rank) (markers s).
Proof.
  eexists.
  match goal with |- ?A ∧ _ => assert (H1 : A) by (vm_compute; reflexivity) end.
  split; [exact H1|].
  apply (series_coloured_by_sorted_rank (H := seed_host) _ _); [|exact H1].
  apply (proj1 (Forall_forall _ _)). evaluate.
Defined.

(** X6 on the first point of the seed data followed by one without a
    light response. *)
Lemma NaN_value_blanks_vertical_axis_witness :
  ∃ c, SvgLineChart (H := seed_host)
         [seed_point; entry 1 "J23-1062.txt" (of_Z 0) (of_Z 0) (of_Z 217) NaN]
         "light_response" ["J23-1062.txt"] ∅ = Chart c ∧
    Forall (λ line, at_pixel line = NaN ∧ text line = "NaN") (yGrid c) ∧
    ∀ s vertex, s ∈ lines c → vertex ∈ linePath s → vertex.2 = NaN.
Proof.
  eexists.
  match goal with |- ?A ∧ _ => assert (H1 : A) by (vm_compute; reflexivity) end.
  split; [exact H1|].
  apply (NaN_value_blanks_vertical_axis (H := seed_host) _ _ _ _ _ H1).
  eexists. split; [right; left|reflexivity].
Defined.

(** X8 after the first snapshot of the seed data and a click on a PMT. *)
Lemma reachable_selection_is_valid_witness :
  valid (handlePmtToggle "J23-1062.txt" (onSnapshot initialData App.initial)).
Proof.
  apply reachable_selection_is_valid.
  eapply reachable_step; [eapply reachable_step; [apply reachable_initial|]|].
  - apply (App.step_snapshot initialData).
  - apply App.step_toggle. evaluate.
Defined.


(** X11 on the seed data. *)
Lemma snapshot_redelivery_witness :
  onSnapshot initialData (onSnapshot initialData App.initial)
  = onSnapshot initialData App.initial.
Proof.
  apply snapshot_redelivery. intros E. vm_compute in E. discriminate E.
Defined.

(** X13 on the seed data, from an empty selection. *)
Lemma select_all_draws_everything_witness :
  ∃ c, render_chart (H := seed_host)
         (handleSelectAll (handleClearSelection (onSnapshot initialData App.initial)))
       = Chart c ∧
    pmt_key <$> lines c = ["A24-1080.txt"; "J23-1062.txt"] ∧
    ∀ k s, lines c !! k = Some s → stroke s = plot_color k.
Proof.
  eexists.
  match goal with |- ?A ∧ _ => assert (H1 : A) by (vm_compute; reflexivity) end.
  split; [exact H1|].
  destruct (select_all_draws_everything (H := seed_host) _ _ H1) as (_ & Hkeys & Hstroke).
  split; [exact Hkeys|exact Hstroke].
Defined.

(** X14 right after the start-up. *)
Lemma missing_config_stays_loading_witness :
  render (H := seed_host) (initialize false None Lifecycle.initial) = LoadingScreen ∧
  App.error (app (initialize false None Lifecycle.initial))
  = Some "Firebase configuration is missing. Cannot initialize application.".
Proof.
  destruct (missing_config_stays_loading (H := seed_host)
              (initialize false None Lifecycle.initial)) as [Hscreen _].
  - apply rtc_once. apply step_initialize.
  - split; [exact Hscreen|reflexivity].
Defined.

(** X15 on a failed sign-in followed by a snapshot of the seed data. *)
Lemma error_is_never_cleared_witness :
  truthy (App.error (app (signInFailed "offline" (initialize true None Lifecycle.initial)))) ∧
  truthy (App.error (app (with_app (onSnapshot initialData)
            (signInFailed "offline" (initialize true None Lifecycle.initial))))) ∧
  ∀ p, render (H := seed_host)
         (with_app (onSnapshot initialData)
            (signInFailed "offline" (initialize true None Lifecycle.initial)))
       ≠ MainPage p.
Proof.
  split; [exact I|].
  apply (error_is_never_cleared (H := seed_host) true
           (signInFailed "offline" (initialize true None Lifecycle.initial))).
  - apply rtc_once. apply Lifecycle.step_snapshot; exact I.
  - exact I.
Defined.



(** X21 on the seed data. *)
Lemma markers_sit_on_vertices_witness :
  ∃ c, SvgLineChart (H := seed_host) initialData "light_response"
         ["J23-1062.txt"; "A24-1080.txt"] ∅ = Chart c ∧
    ∀ s, s ∈ lines c → (λ m, (cx m, cy m)) <$> markers s = linePath s.
Proof.
  eexists.
  match goal with |- ?A ∧ _ => assert (H1 : A) by (vm_compute; reflexivity) end.
  split; [exact H1|].
  exact (markers_sit_on_vertices (H := seed_host) _ _ _ _ _ H1).
Defined.

(** X20 on the seed data under the key [source_file], which holds a
    string. *)
Lemma point_without_number_throws_witness :
  prop seed_point "source_file" = VString "J23-1062.txt" ∧
  ∃ e, SvgLineChart (H := seed_host) initialData "source_file" ["J23-1062.txt"] ∅
       = Thrown e.
Proof.
  split; [reflexivity|].
  apply (point_without_number_throws (H := seed_host) _ _ _ _ seed_point).
  - left.
  - left.
  - intros v E. vm_compute in E. discriminate E.
Defined.

End SeedExamples.
